(** * payment-protocol-js-sdk: the stream record codec, the amount scaler,
      the name encoder and the address search, embedded and verified.

    Sources: src/unnamed/part_000, which holds the two modules that sdk.ts
    imports as ./utils (TokenStreamDataLayout, decodeStream,
    formatDecodedStream, getBN, getNumberFromBN) and ./constants
    (STREAM_STRUCT_OFFSET_SENDER, STREAM_STRUCT_OFFSET_RECIPIENT), and
    src/packages/stream/sdk.ts (formatStringToBytesArray, Stream.create,
    Stream.getOne, Stream.get).

    Library calls are modelled by what the libraries do on the values the
    program hands them: buffer-layout (blob, u8, struct), bn.js (BN),
    @solana/web3.js (PublicKey) and the JavaScript Number type. *)

From stdpp Require Import gmap strings list.
From Stdlib Require Import ZArith NArith QArith Qabs Qround Strings.Byte Lia.
From Stdlib Require PrimFloat FloatOps SpecFloat.

Close Scope Q_scope.
Local Open Scope string_scope.
Local Open Scope list_scope.

(** ** Exceptions and results *)

(** The exceptions the modelled code can raise. *)
Inductive error : Type :=
| RangeError        (* Buffer.readUIntLE out of range, new Array(-n) *)
| AssertionError    (* bn.js assert(...) *)
| TypeError         (* a property read of undefined *)
| InvalidPublicKey  (* web3.js "Invalid public key input" *)
| DerivationError.  (* no viable program address *)

(** A call either returns a value or throws. *)
Inductive result (A : Type) : Type :=
| Ok (a : A)
| Throw (e : error).
Arguments Ok {A} a.
Arguments Throw {A} e.

Definition bind {A B : Type} (r : result A) (k : A -> result B) : result B :=
  match r with
  | Ok a => k a
  | Throw e => Throw e
  end.

Notation "'let!' x ':=' r 'in' k" := (bind r (fun x => k))
  (at level 10, x name, r at level 100, k at level 200).

Definition returns {A : Type} (r : result A) : Prop := exists a, r = Ok a.
Definition throws {A : Type} (r : result A) : Prop := exists e, r = Throw e.

(** ** Buffers *)

(** [Buffer.prototype.slice(start, end)]: the bytes from [start] up to
    [end], clamped to the buffer's length; it never throws. *)
Definition slice (b : list byte) (start end_ : nat) : list byte :=
  take (end_ - start) (drop start b).

(** Unsigned little-endian value of a byte sequence. *)
Fixpoint le_decode (b : list byte) : N :=
  match b with
  | [] => 0
  | x :: rest => Byte.to_N x + 256 * le_decode rest
  end%N.

(** Unsigned big-endian value of a byte sequence. *)
Definition be_decode (b : list byte) : N :=
  fold_left (fun acc x => 256 * acc + Byte.to_N x)%N b 0%N.

(** The byte whose value is [n mod 256]. *)
Definition byte_of_N (n : N) : byte :=
  match Byte.of_N (n mod 256) with
  | Some x => x
  | None => x00
  end.

(** [len] bytes, big-endian, of [n] (its low [8 * len] bits). *)
Fixpoint be_encode (len : nat) (n : N) : list byte :=
  match len with
  | O => []
  | S k => be_encode k (n / 256) ++ [byte_of_N n]
  end.

(** [Buffer.prototype.readUIntLE(offset, byteLength)]: throws a RangeError
    unless the whole range lies inside the buffer. *)
Definition readUIntLE (b : list byte) (offset byteLength : nat) : result N :=
  if decide (offset + byteLength <= length b)
  then Ok (le_decode (slice b offset (offset + byteLength)))
  else Throw RangeError.

(** ** buffer-layout *)

(** The two layout kinds the program uses. [blob n p] spans [n] bytes and
    decodes to [b.slice(offset, offset + n)]; [u8 p] spans one byte and
    decodes to [b.readUIntLE(offset, 1)]. *)
Inductive Layout : Type :=
| blob (span : nat) (property : string)
| u8 (property : string).

Definition getSpan (fd : Layout) : nat :=
  match fd with
  | blob n _ => n
  | u8 _ => 1
  end.

Definition property (fd : Layout) : string :=
  match fd with
  | blob _ p => p
  | u8 p => p
  end.

(** What a decoded property holds: a byte slice or a JavaScript number. *)
Inductive raw : Type :=
| RawBytes (b : list byte)
| RawUInt (n : N).

Definition layout_decode (fd : Layout) (b : list byte) (offset : nat) : result raw :=
  match fd with
  | blob n _ => Ok (RawBytes (slice b offset (offset + n)))
  | u8 _ => let! n := readUIntLE b offset 1 in Ok (RawUInt n)
  end.

(** [Structure.prototype.decode]: walks the fields in order, decoding each at
    the running offset into the destination object. *)
Fixpoint struct_decode (fields : list Layout) (b : list byte) (offset : nat)
    (dest : gmap string raw) : result (gmap string raw) :=
  match fields with
  | [] => Ok dest
  | fd :: rest =>
      let! v := layout_decode fd b offset in
      struct_decode rest b (offset + getSpan fd) (<[property fd := v]> dest)
  end.

(** Offset of each field: the spans of the fields before it, summed. *)
Fixpoint layout_offsets (fields : list Layout) (offset : nat) : list (string * nat) :=
  match fields with
  | [] => []
  | fd :: rest => (property fd, offset) :: layout_offsets rest (offset + getSpan fd)
  end.

Definition layout_span (fields : list Layout) : nat :=
  foldr (fun fd acc => getSpan fd + acc) 0 fields.

Fixpoint assoc_offset (table : list (string * nat)) (p : string) : option nat :=
  match table with
  | [] => None
  | (q, o) :: rest => if decide (q = p) then Some o else assoc_offset rest p
  end.

Definition offset_of (fields : list Layout) (p : string) : option nat :=
  assoc_offset (layout_offsets fields 0) p.

(** part_000, lines 10-48. *)
Definition TokenStreamDataLayout : list Layout :=
  [ blob 8 "magic";
    blob 1 "version";
    blob 8 "created_at";
    blob 8 "withdrawn_amount";
    blob 8 "canceled_at";
    blob 8 "end_time";
    blob 8 "last_withdrawn_at";
    blob 32 "sender";
    blob 32 "sender_tokens";
    blob 32 "recipient";
    blob 32 "recipient_tokens";
    blob 32 "mint";
    blob 32 "escrow_tokens";
    blob 32 "streamdao_treasury";
    blob 32 "streamdao_treasury_tokens";
    blob 8 "streamdao_fee_total";
    blob 8 "streamdao_fee_withdrawn";
    blob 4 "streamdao_fee_percent";
    blob 32 "partner";
    blob 32 "partner_tokens";
    blob 8 "partner_fee_total";
    blob 8 "partner_fee_withdrawn";
    blob 4 "partner_fee_percent";
    blob 8 "start_time";
    blob 8 "net_deposited_amount";
    blob 8 "period";
    blob 8 "amount_per_period";
    blob 8 "cliff";
    blob 8 "cliff_amount";
    u8 "cancelable_by_sender";
    u8 "cancelable_by_recipient";
    u8 "automatic_withdrawal";
    u8 "transferable_by_sender";
    u8 "transferable_by_recipient";
    u8 "can_topup";
    blob 64 "stream_name";
    blob 8 "withdraw_frequency" ].

(** part_000, lines 161-162. *)
Definition STREAM_STRUCT_OFFSET_SENDER : nat := 49.
Definition STREAM_STRUCT_OFFSET_RECIPIENT : nat := 113.

(** ** bn.js integers *)

(** A [BN] is an arbitrary-precision integer. *)
Definition BN : Type := Z.

(** [new BN(bytes, "le")]: the unsigned little-endian value of the bytes
    (bn.js reads a leading "le" as the endianness, with base 10). *)
Definition BN_le (b : list byte) : BN := Z.of_N (le_decode b).

(** [bn.byteLength()]: the bytes needed for the magnitude. *)
Definition byteLength (n : N) : N := ((N.size n + 7) / 8)%N.

(** [a.div(b)]: bn.js asserts that the divisor is not zero and truncates the
    quotient towards zero. *)
Definition BN_div (a b : BN) : result BN :=
  if (b =? 0)%Z then Throw AssertionError else Ok (Z.quot a b).

(** ** web3.js public keys *)

(** A [PublicKey] keeps the big-endian value of its 32 bytes in [_bn]. *)
Record PublicKey : Type := { _bn : N }.

(** [new PublicKey(bytes)]: throws when the value needs more than 32 bytes. *)
Definition PublicKey_new (b : list byte) : result PublicKey :=
  let bn := be_decode b in
  if (32 <? byteLength bn)%N then Throw InvalidPublicKey else Ok {| _bn := bn |}.

(** [key.toBuffer()]: the value as 32 big-endian bytes, zero-padded on the
    left. *)
Definition toBuffer (key : PublicKey) : list byte := be_encode 32 (_bn key).

(** ** JavaScript numbers *)

(** A Number is an IEEE 754 binary64 value. A finite one is kept as the
    rational it denotes, in lowest terms; the two zeros are not told apart
    (nothing in the program can observe the sign of a zero). *)
Inductive number : Type :=
| NaN
| Infinity (negative : bool)
| Finite (q : Q).

(** [2 ^ k] for [0 <= k], and 1 below. *)
Definition pow2 (k : Z) : Z := 2 ^ Z.max 0 k.

(** The integer [e] with [2^e <= p/q < 2^(e+1)]. *)
Definition ilog2 (p q : positive) : Z :=
  let l := (Z.log2 (Zpos p) - Z.log2 (Zpos q))%Z in
  if (Zpos p * pow2 (- l) <? Zpos q * pow2 l)%Z then (l - 1)%Z else l.

(** The integer nearest to [a / b], ties to the even one ([0 <= a], [0 < b]). *)
Definition div_half_even (a b : Z) : Z :=
  let d := (a / b)%Z in
  let r := (a mod b)%Z in
  match (2 * r ?= b)%Z with
  | Lt => d
  | Gt => (d + 1)%Z
  | Eq => if Z.even d then d else (d + 1)%Z
  end.

(** Rounding of the positive rational [p/q] to binary64, round to nearest,
    ties to even: 53 significant bits, exponents from -1022 (below, the
    subnormal spacing 2^-1074), overflow to infinity from 2^1024. *)
Definition round_pos (negative : bool) (p q : positive) : number :=
  let e := Z.max (ilog2 p q) (-1022) in
  let k := (e - 52)%Z in
  let n := div_half_even (Zpos p * pow2 (- k)) (Zpos q * pow2 k) in
  if (2 ^ 1024 * pow2 (- k) <=? n * pow2 k)%Z
  then Infinity negative
  else Finite (Qred (Qmake ((if negative then -1 else 1) * (n * pow2 k))
                           (Z.to_pos (pow2 (- k))))).

(** The Number value for a rational. *)
Definition round (q : Q) : number :=
  let r := Qred q in
  match Qnum r with
  | Z0 => Finite 0
  | Zpos p => round_pos false p (Qden r)
  | Zneg p => round_pos true p (Qden r)
  end.

Definition is_zero (q : Q) : bool := (Qnum q =? 0)%Z.
Definition is_neg (q : Q) : bool := (Qnum q <? 0)%Z.

(** [x * y] *)
Definition number_mul (x y : number) : number :=
  match x, y with
  | NaN, _ | _, NaN => NaN
  | Infinity s, Infinity t => Infinity (xorb s t)
  | Infinity s, Finite q | Finite q, Infinity s =>
      if is_zero q then NaN else Infinity (xorb s (is_neg q))
  | Finite p, Finite q => round (p * q)
  end.

(** [x / y] *)
Definition number_div (x y : number) : number :=
  match x, y with
  | NaN, _ | _, NaN => NaN
  | Infinity _, Infinity _ => NaN
  | Infinity s, Finite q => Infinity (xorb s (is_neg q))
  | Finite _, Infinity _ => Finite 0
  | Finite p, Finite q =>
      if is_zero q
      then (if is_zero p then NaN else Infinity (is_neg p))
      else round (p / q)
  end.

(** [x > y] *)
Definition number_gt (x y : number) : bool :=
  match x, y with
  | NaN, _ | _, NaN => false
  | Infinity s, Infinity t => negb s && t
  | Infinity s, Finite _ => negb s
  | Finite _, Infinity t => t
  | Finite p, Finite q => match (p ?= q)%Q with Gt => true | _ => false end
  end.

(** [10 ** decimals], for a decimals count: the double nearest to the power.
    Up to 22 decimals the power is itself a double and every engine yields
    it; beyond, an engine's result may be an ulp away from the nearest
    double, and no statement below depends on the value there. *)
Definition pow10 (decimals : nat) : number :=
  round (inject_Z (10 ^ Z.of_nat decimals)).

(** [2 ** 53 - 1] *)
Definition MAX_SAFE : Z := 9007199254740991.

(** The integer part of a rational, towards zero. *)
Definition trunc (q : Q) : Z := Z.quot (Qnum q) (Zpos (Qden q)).

(** [new BN(x)] for a Number [x]. bn.js takes [x || 0], so NaN counts as 0;
    it asserts [x < 0x20000000000000] on the magnitude and keeps the integer
    part (its word extraction uses bitwise operators, which truncate). For
    a Number between -1 and 0 bn.js keeps the sign beside the magnitude 0;
    the integer here is 0, and whether the call returns does not depend on
    it. *)
Definition BN_of_number (x : number) : result BN :=
  match x with
  | NaN => Ok 0%Z
  | Infinity _ => Throw AssertionError
  | Finite q =>
      if Qle_bool (inject_Z (2 ^ 53)) (Qabs q)
      then Throw AssertionError
      else Ok (trunc q)
  end.

(** [bn.toNumber()]: bn.js asserts that the value fits 53 bits. *)
Definition toNumber (v : BN) : result number :=
  if (Z.abs v <? 2 ^ 53)%Z then Ok (Finite (inject_Z v)) else Throw AssertionError.

(** ** The amount scaler (part_000, lines 140-154) *)

Definition getBN (value : number) (decimals : nat) : result BN :=
  if number_gt value (number_div (Finite (inject_Z MAX_SAFE)) (pow10 decimals))
  then
    let! a := BN_of_number value in
    let! b := BN_of_number (pow10 decimals) in
    Ok (a * b)%Z
  else BN_of_number (number_mul value (pow10 decimals)).

Definition getNumberFromBN (value : BN) (decimals : nat) : result number :=
  let! bound := BN_of_number (Finite (inject_Z MAX_SAFE)) in
  if (value >? bound)%Z
  then
    let! b := BN_of_number (pow10 decimals) in
    let! q := BN_div value b in
    toNumber q
  else
    let! n := toNumber value in
    Ok (number_div n (pow10 decimals)).

(** ** JavaScript strings (sdk.ts, lines 480-500) *)

(** A string is its sequence of UTF-16 code units. *)
Definition jsstring : Type := list N.

Definition is_high_surrogate (u : N) : bool := ((0xD800 <=? u) && (u <=? 0xDBFF))%N.
Definition is_low_surrogate (u : N) : bool := ((0xDC00 <=? u) && (u <=? 0xDFFF))%N.

(** [[...text]]: the string iterator yields one string per code point, a
    surrogate pair together and any other code unit alone. *)
Fixpoint codePoints (text : jsstring) : list jsstring :=
  match text with
  | [] => []
  | u :: tl =>
      match tl with
      | v :: rest =>
          if is_high_surrogate u && is_low_surrogate v
          then [u; v] :: codePoints rest
          else [u] :: codePoints tl
      | [] => [[u]]
      end
  end.

(** The scalar values of a string: a surrogate pair is one supplementary code
    point and a lone surrogate becomes U+FFFD. *)
Fixpoint scalarValues (text : jsstring) : list N :=
  match text with
  | [] => []
  | u :: tl =>
      match tl with
      | v :: rest =>
          if is_high_surrogate u && is_low_surrogate v
          then (0x10000 + (u - 0xD800) * 0x400 + (v - 0xDC00))%N :: scalarValues rest
          else (if is_high_surrogate u || is_low_surrogate u then 0xFFFD%N else u)
               :: scalarValues tl
      | [] => [if is_high_surrogate u || is_low_surrogate u then 0xFFFD%N else u]
      end
  end.

(** UTF-8 bytes of one scalar value. *)
Definition utf8_bytes (c : N) : list byte :=
  if (c <? 0x80)%N then [byte_of_N c]
  else if (c <? 0x800)%N then
    [byte_of_N (0xC0 + c / 0x40); byte_of_N (0x80 + c mod 0x40)]
  else if (c <? 0x10000)%N then
    [byte_of_N (0xE0 + c / 0x1000); byte_of_N (0x80 + (c / 0x40) mod 0x40);
     byte_of_N (0x80 + c mod 0x40)]
  else
    [byte_of_N (0xF0 + c / 0x40000); byte_of_N (0x80 + (c / 0x1000) mod 0x40);
     byte_of_N (0x80 + (c / 0x40) mod 0x40); byte_of_N (0x80 + c mod 0x40)].

(** [encoder.encode(text)] *)
Definition TextEncoder_encode (text : jsstring) : list byte :=
  flat_map utf8_bytes (scalarValues text).

(** [new Array(n).fill(v)]: a RangeError for a negative length. *)
Definition Array_fill {A : Type} (n : Z) (v : A) : result (list A) :=
  if (n <? 0)%Z then Throw RangeError else Ok (replicate (Z.to_nat n) v).

(** The callback of [characters.every]: [every] stops at the first character
    for which it returns false. *)
Fixpoint every_char (characters : list jsstring) (utf8EncodedBytes : list BN) : list BN :=
  match characters with
  | [] => utf8EncodedBytes
  | char :: rest =>
      if decide (64 < length utf8EncodedBytes) then utf8EncodedBytes
      else
        let encoded := TextEncoder_encode char in
        if decide (64 < length utf8EncodedBytes + length encoded) then utf8EncodedBytes
        else every_char rest (utf8EncodedBytes ++ map (fun elem => Z.of_N (Byte.to_N elem)) encoded)
  end.

Definition formatStringToBytesArray (text : jsstring) : result (list BN) :=
  let characters := codePoints text in
  let utf8EncodedBytes := every_char characters [] in
  let numberOfBytes := length utf8EncodedBytes in
  let! fill := Array_fill (64 - Z.of_nat numberOfBytes) 0%Z in
  Ok (utf8EncodedBytes ++ fill).

(** ** The decoded record (part_000, lines 50-132) *)

Module DecodedStream.
Record t : Type := mk {
  magic : BN;
  version : BN;
  createdAt : BN;
  withdrawnAmount : BN;
  canceledAt : BN;
  end_ : BN;
  lastWithdrawnAt : BN;
  sender : PublicKey;
  senderTokens : PublicKey;
  recipient : PublicKey;
  recipientTokens : PublicKey;
  mint : PublicKey;
  escrowTokens : PublicKey;
  streamdaoTreasury : PublicKey;
  streamdaoTreasuryTokens : PublicKey;
  streamdaoFeeTotal : BN;
  streamdaoFeeWithdrawn : BN;
  streamdaoFeePercent : BN;
  partnerFeeTotal : BN;
  partnerFeeWithdrawn : BN;
  partnerFeePercent : BN;
  partner : PublicKey;
  partnerTokens : PublicKey;
  start : BN;
  depositedAmount : BN;
  period : BN;
  amountPerPeriod : BN;
  cliff : BN;
  cliffAmount : BN;
  cancelableBySender : bool;
  cancelableByRecipient : bool;
  automaticWithdrawal : bool;
  transferableBySender : bool;
  transferableByRecipient : bool;
  canTopup : bool;
  name : jsstring;
  withdrawalFrequency : BN
}.
End DecodedStream.

Module Stream.
Record t : Type := mk {
  magic : number;
  version : number;
  createdAt : number;
  withdrawnAmount : BN;
  canceledAt : number;
  end_ : number;
  lastWithdrawnAt : number;
  sender : string;
  senderTokens : string;
  recipient : string;
  recipientTokens : string;
  mint : string;
  escrowTokens : string;
  streamdaoTreasury : string;
  streamdaoTreasuryTokens : string;
  streamdaoFeeTotal : BN;
  streamdaoFeeWithdrawn : BN;
  streamdaoFeePercent : number;
  partnerFeeTotal : BN;
  partnerFeeWithdrawn : BN;
  partnerFeePercent : number;
  partner : string;
  partnerTokens : string;
  start : number;
  depositedAmount : BN;
  period : number;
  amountPerPeriod : BN;
  cliff : number;
  cliffAmount : BN;
  cancelableBySender : bool;
  cancelableByRecipient : bool;
  automaticWithdrawal : bool;
  transferableBySender : bool;
  transferableByRecipient : bool;
  canTopup : bool;
  name : jsstring;
  withdrawalFrequency : number
}.
End Stream.

(** [raw.p] for a blob property and for a u8 property. [struct_decode] sets
    every property of the layout, so the TypeError branch is never taken. *)
Definition get_blob (o : gmap string raw) (p : string) : result (list byte) :=
  match o !! p with
  | Some (RawBytes b) => Ok b
  | _ => Throw TypeError
  end.

Definition get_u8 (o : gmap string raw) (p : string) : result N :=
  match o !! p with
  | Some (RawUInt n) => Ok n
  | _ => Throw TypeError
  end.

(** [Boolean(n)] for a number: false for 0 only. *)
Definition Boolean (n : N) : bool := negb (n =? 0)%N.

Section Platform.

(** [decoder.decode]: the platform's UTF-8 TextDecoder (total: malformed
    input decodes to replacement characters). *)
Variable TextDecoder_decode : list byte -> jsstring.

(** [key.toBase58()]: the bs58 text of a key (total). *)
Variable toBase58 : PublicKey -> string.

Definition decodeStream (buf : list byte) : result DecodedStream.t :=
  let! o := struct_decode TokenStreamDataLayout buf 0 ∅ in
  let! magic := get_blob o "magic" in
  let! version := get_blob o "version" in
  let! created_at := get_blob o "created_at" in
  let! withdrawn_amount := get_blob o "withdrawn_amount" in
  let! canceled_at := get_blob o "canceled_at" in
  let! end_time := get_blob o "end_time" in
  let! last_withdrawn_at := get_blob o "last_withdrawn_at" in
  let! sender := let! b := get_blob o "sender" in PublicKey_new b in
  let! sender_tokens := let! b := get_blob o "sender_tokens" in PublicKey_new b in
  let! recipient := let! b := get_blob o "recipient" in PublicKey_new b in
  let! recipient_tokens := let! b := get_blob o "recipient_tokens" in PublicKey_new b in
  let! mint := let! b := get_blob o "mint" in PublicKey_new b in
  let! escrow_tokens := let! b := get_blob o "escrow_tokens" in PublicKey_new b in
  let! streamdao_treasury := let! b := get_blob o "streamdao_treasury" in PublicKey_new b in
  let! streamdao_treasury_tokens :=
    let! b := get_blob o "streamdao_treasury_tokens" in PublicKey_new b in
  let! streamdao_fee_total := get_blob o "streamdao_fee_total" in
  let! streamdao_fee_withdrawn := get_blob o "streamdao_fee_withdrawn" in
  let! streamdao_fee_percent := get_blob o "streamdao_fee_percent" in
  let! partner_fee_total := get_blob o "partner_fee_total" in
  let! partner_fee_withdrawn := get_blob o "partner_fee_withdrawn" in
  let! partner_fee_percent := get_blob o "partner_fee_percent" in
  let! partner := let! b := get_blob o "partner" in PublicKey_new b in
  let! partner_tokens := let! b := get_blob o "partner_tokens" in PublicKey_new b in
  let! start_time := get_blob o "start_time" in
  let! net_deposited_amount := get_blob o "net_deposited_amount" in
  let! period := get_blob o "period" in
  let! amount_per_period := get_blob o "amount_per_period" in
  let! cliff := get_blob o "cliff" in
  let! cliff_amount := get_blob o "cliff_amount" in
  let! cancelable_by_sender := get_u8 o "cancelable_by_sender" in
  let! cancelable_by_recipient := get_u8 o "cancelable_by_recipient" in
  let! automatic_withdrawal := get_u8 o "automatic_withdrawal" in
  let! transferable_by_sender := get_u8 o "transferable_by_sender" in
  let! transferable_by_recipient := get_u8 o "transferable_by_recipient" in
  let! can_topup := get_u8 o "can_topup" in
  let! stream_name := get_blob o "stream_name" in
  let! withdraw_frequency := get_blob o "withdraw_frequency" in
  Ok {|
    DecodedStream.magic := BN_le magic;
    DecodedStream.version := BN_le version;
    DecodedStream.createdAt := BN_le created_at;
    DecodedStream.withdrawnAmount := BN_le withdrawn_amount;
    DecodedStream.canceledAt := BN_le canceled_at;
    DecodedStream.end_ := BN_le end_time;
    DecodedStream.lastWithdrawnAt := BN_le last_withdrawn_at;
    DecodedStream.sender := sender;
    DecodedStream.senderTokens := sender_tokens;
    DecodedStream.recipient := recipient;
    DecodedStream.recipientTokens := recipient_tokens;
    DecodedStream.mint := mint;
    DecodedStream.escrowTokens := escrow_tokens;
    DecodedStream.streamdaoTreasury := streamdao_treasury;
    DecodedStream.streamdaoTreasuryTokens := streamdao_treasury_tokens;
    DecodedStream.streamdaoFeeTotal := BN_le streamdao_fee_total;
    DecodedStream.streamdaoFeeWithdrawn := BN_le streamdao_fee_withdrawn;
    DecodedStream.streamdaoFeePercent := BN_le streamdao_fee_percent;
    DecodedStream.partnerFeeTotal := BN_le partner_fee_total;
    DecodedStream.partnerFeeWithdrawn := BN_le partner_fee_withdrawn;
    DecodedStream.partnerFeePercent := BN_le partner_fee_percent;
    DecodedStream.partner := partner;
    DecodedStream.partnerTokens := partner_tokens;
    DecodedStream.start := BN_le start_time;
    DecodedStream.depositedAmount := BN_le net_deposited_amount;
    DecodedStream.period := BN_le period;
    DecodedStream.amountPerPeriod := BN_le amount_per_period;
    DecodedStream.cliff := BN_le cliff;
    DecodedStream.cliffAmount := BN_le cliff_amount;
    DecodedStream.cancelableBySender := Boolean cancelable_by_sender;
    DecodedStream.cancelableByRecipient := Boolean cancelable_by_recipient;
    DecodedStream.automaticWithdrawal := Boolean automatic_withdrawal;
    DecodedStream.transferableBySender := Boolean transferable_by_sender;
    DecodedStream.transferableByRecipient := Boolean transferable_by_recipient;
    DecodedStream.canTopup := Boolean can_topup;
    DecodedStream.name := TextDecoder_decode stream_name;
    DecodedStream.withdrawalFrequency := BN_le withdraw_frequency
  |}.

Definition formatDecodedStream (stream : DecodedStream.t) : result Stream.t :=
  let! magic := toNumber (DecodedStream.magic stream) in
  let! version := toNumber (DecodedStream.version stream) in
  let! createdAt := toNumber (DecodedStream.createdAt stream) in
  let! canceledAt := toNumber (DecodedStream.canceledAt stream) in
  let! end_ := toNumber (DecodedStream.end_ stream) in
  let! lastWithdrawnAt := toNumber (DecodedStream.lastWithdrawnAt stream) in
  let! streamdaoFeePercent := toNumber (DecodedStream.streamdaoFeePercent stream) in
  let! partnerFeePercent := toNumber (DecodedStream.partnerFeePercent stream) in
  let! start := toNumber (DecodedStream.start stream) in
  let! period := toNumber (DecodedStream.period stream) in
  let! cliff := toNumber (DecodedStream.cliff stream) in
  let! withdrawalFrequency := toNumber (DecodedStream.withdrawalFrequency stream) in
  Ok {|
    Stream.magic := magic;
    Stream.version := version;
    Stream.createdAt := createdAt;
    Stream.withdrawnAmount := DecodedStream.withdrawnAmount stream;
    Stream.canceledAt := canceledAt;
    Stream.end_ := end_;
    Stream.lastWithdrawnAt := lastWithdrawnAt;
    Stream.sender := toBase58 (DecodedStream.sender stream);
    Stream.senderTokens := toBase58 (DecodedStream.senderTokens stream);
    Stream.recipient := toBase58 (DecodedStream.recipient stream);
    Stream.recipientTokens := toBase58 (DecodedStream.recipientTokens stream);
    Stream.mint := toBase58 (DecodedStream.mint stream);
    Stream.escrowTokens := toBase58 (DecodedStream.escrowTokens stream);
    Stream.streamdaoTreasury := toBase58 (DecodedStream.streamdaoTreasury stream);
    Stream.streamdaoTreasuryTokens :=
      toBase58 (DecodedStream.streamdaoTreasuryTokens stream);
    Stream.streamdaoFeeTotal := DecodedStream.streamdaoFeeTotal stream;
    Stream.streamdaoFeeWithdrawn := DecodedStream.streamdaoFeeWithdrawn stream;
    Stream.streamdaoFeePercent := streamdaoFeePercent;
    Stream.partnerFeeTotal := DecodedStream.partnerFeeTotal stream;
    Stream.partnerFeeWithdrawn := DecodedStream.partnerFeeWithdrawn stream;
    Stream.partnerFeePercent := partnerFeePercent;
    Stream.partner := toBase58 (DecodedStream.partner stream);
    Stream.partnerTokens := toBase58 (DecodedStream.partnerTokens stream);
    Stream.start := start;
    Stream.depositedAmount := DecodedStream.depositedAmount stream;
    Stream.period := period;
    Stream.amountPerPeriod := DecodedStream.amountPerPeriod stream;
    Stream.cliff := cliff;
    Stream.cliffAmount := DecodedStream.cliffAmount stream;
    Stream.cancelableBySender := DecodedStream.cancelableBySender stream;
    Stream.cancelableByRecipient := DecodedStream.cancelableByRecipient stream;
    Stream.automaticWithdrawal := DecodedStream.automaticWithdrawal stream;
    Stream.transferableBySender := DecodedStream.transferableBySender stream;
    Stream.transferableByRecipient := DecodedStream.transferableByRecipient stream;
    Stream.canTopup := DecodedStream.canTopup stream;
    Stream.name := DecodedStream.name stream;
    Stream.withdrawalFrequency := withdrawalFrequency
  |}.

(** [Stream.getOne], once the account data is fetched (sdk.ts, line 390). *)
Definition getOne (data : list byte) : result Stream.t :=
  let! decoded := decodeStream data in formatDecodedStream decoded.

End Platform.

(** ** The program address search (sdk.ts, lines 109-112) *)

(** [Buffer.from("strm")] *)
Definition strm : list byte := [x73; x74; x72; x6d].

(** The seeds [Stream.create] hands to the search: the text "strm" and the
    32 bytes of the fresh metadata key. *)
Definition escrow_seeds (metadata : PublicKey) : list (list byte) :=
  [strm; toBuffer metadata].

Section AddressDeriver.

(** The seed hash of the ledger and its curve test, both external. *)
Variable seed_hash : list (list byte) -> list byte -> list byte.
Variable on_curve : list byte -> bool.

(** Modelled from the spec: one candidate of the seed-hash derivation, the
    seeds with the bump byte appended, hashed with the namespace
    identifier. *)
Definition candidate (seeds : list (list byte)) (programId : list byte)
    (bump : N) : list byte :=
  seed_hash (seeds ++ [[byte_of_N bump]]) programId.

(** The state of the search loop: still trying a bump, or finished. *)
Inductive search : Type :=
| Trying (bump : N) (attempts : nat)
| Finished (outcome : result (list byte * N)) (attempts : nat).

(** Modelled from the spec: [PublicKey.findProgramAddress], which belongs to
    @solana/web3.js and is only called by sdk.ts. One turn of the loop tries
    one bump: an off-curve candidate ends the search with the address and
    its bump, an on-curve one moves to the next bump, and past the 256th
    bump the search fails with a DerivationError. *)
Definition search_step (seeds : list (list byte)) (programId : list byte)
    (s : search) : search :=
  match s with
  | Trying bump attempts =>
      if (bump <? 256)%N then
        let address := candidate seeds programId bump in
        if on_curve address
        then Trying (bump + 1) (S attempts)
        else Finished (Ok (address, bump)) (S attempts)
      else Finished (Throw DerivationError) attempts
  | Finished outcome attempts => Finished outcome attempts
  end.

(** Modelled from the spec: the search loop run for at most [fuel] turns from
    bump 0; [None] when it is still running after them. *)
Fixpoint search_run (seeds : list (list byte)) (programId : list byte)
    (fuel : nat) (s : search) : option (result (list byte * N) * nat) :=
  match s with
  | Finished outcome attempts => Some (outcome, attempts)
  | Trying _ _ =>
      match fuel with
      | O => None
      | S fuel' => search_run seeds programId fuel' (search_step seeds programId s)
      end
  end.

(** Modelled from the spec: [PublicKey.findProgramAddress(seeds, programId)],
    the search started at bump 0 with no attempt made. *)
Definition findProgramAddress (seeds : list (list byte)) (programId : list byte)
    (fuel : nat) : option (result (list byte * N) * nat) :=
  search_run seeds programId fuel (Trying 0 0).

(** What a finished search has established, for a search that started at
    bump [b] after [a] attempts: either an off-curve candidate at a bump
    below 256, every earlier bump being on the curve, or a DerivationError
    after all the bumps up to 255 turned out on the curve. *)
Definition search_outcome (seeds : list (list byte)) (programId : list byte)
    (b : N) (a : nat) (outcome : result (list byte * N)) (attempts : nat) : Prop :=
  match outcome with
  | Ok (address, bump) =>
      (b <= bump < 256)%N /\
      attempts = a + N.to_nat (bump - b) + 1 /\
      address = candidate seeds programId bump /\
      on_curve address = false /\
      forall b', (b <= b' < bump)%N -> on_curve (candidate seeds programId b') = true
  | Throw e =>
      e = DerivationError /\
      attempts = a + N.to_nat (256 - b) /\
      forall b', (b <= b' < 256)%N -> on_curve (candidate seeds programId b') = true
  end.

End AddressDeriver.

(** ** The field table of the specification *)

(** The rows of the specification's field table, in the order the table
    lists them, each with its width; the names are those of the layout
    (createdAt is created_at, endTime is end_time, treasuryAddress is
    streamdao_treasury, and so on). *)
Definition spec_field_table : list (string * nat) :=
  [ ("magic", 8); ("version", 1);
    ("created_at", 8); ("canceled_at", 8); ("end_time", 8);
    ("last_withdrawn_at", 8); ("start_time", 8);
    ("withdrawn_amount", 8); ("net_deposited_amount", 8);
    ("amount_per_period", 8); ("cliff_amount", 8); ("period", 8);
    ("cliff", 8); ("withdraw_frequency", 8);
    ("sender", 32); ("sender_tokens", 32); ("recipient", 32);
    ("recipient_tokens", 32); ("mint", 32); ("escrow_tokens", 32);
    ("streamdao_treasury", 32); ("streamdao_treasury_tokens", 32);
    ("partner", 32); ("partner_tokens", 32);
    ("streamdao_fee_total", 8); ("streamdao_fee_withdrawn", 8);
    ("partner_fee_total", 8); ("partner_fee_withdrawn", 8);
    ("streamdao_fee_percent", 4); ("partner_fee_percent", 4);
    ("cancelable_by_sender", 1); ("cancelable_by_recipient", 1);
    ("automatic_withdrawal", 1); ("transferable_by_sender", 1);
    ("transferable_by_recipient", 1); ("can_topup", 1);
    ("stream_name", 64) ].

(** Offsets by summing the widths of the rows above, in the table's order. *)
Fixpoint table_offsets (rows : list (string * nat)) (offset : nat) : list (string * nat) :=
  match rows with
  | [] => []
  | (p, w) :: rest => (p, offset) :: table_offsets rest (offset + w)
  end.

(** ** Helpers of the statements *)

(** The layout's entry for a property: the field and its offset, the sum of
    the spans of the fields before it. *)
Fixpoint field_entry (fields : list Layout) (offset : nat) (p : string) : option (nat * Layout) :=
  match fields with
  | [] => None
  | fd :: rest =>
      if decide (property fd = p) then Some (offset, fd)
      else field_entry rest (offset + getSpan fd) p
  end.

(** The bytes of a buffer that the layout assigns to a property. *)
Definition field_bytes (buf : list byte) (p : string) : list byte :=
  match field_entry TokenStreamDataLayout 0 p with
  | Some (offset, fd) => slice buf offset (offset + getSpan fd)
  | None => []
  end.

(** What a field decodes to when nothing is out of range. *)
Definition pure_decode (fd : Layout) (b : list byte) (offset : nat) : raw :=
  match fd with
  | blob n _ => RawBytes (slice b offset (offset + n))
  | u8 _ => RawUInt (le_decode (slice b offset (offset + 1)))
  end.

(** Every u8 field of the layout lies inside the buffer. *)
Fixpoint in_range (fields : list Layout) (b : list byte) (offset : nat) : bool :=
  match fields with
  | [] => true
  | fd :: rest =>
      match fd with
      | blob _ _ => true
      | u8 _ => bool_decide (offset + 1 <= length b)
      end && in_range rest b (offset + getSpan fd)
  end.

(** The destination object of a decode in which nothing is out of range. *)
Fixpoint struct_fill (fields : list Layout) (b : list byte) (offset : nat)
    (dest : gmap string raw) : gmap string raw :=
  match fields with
  | [] => dest
  | fd :: rest =>
      struct_fill rest b (offset + getSpan fd)
        (<[property fd := pure_decode fd b offset]> dest)
  end.

(** The nine 64-bit fields that [formatDecodedStream] converts with
    [toNumber]: one of them does not fit 53 bits. *)
Definition unsafe_field (r : DecodedStream.t) : Prop :=
  (2 ^ 53 <= DecodedStream.magic r \/
   2 ^ 53 <= DecodedStream.createdAt r \/
   2 ^ 53 <= DecodedStream.canceledAt r \/
   2 ^ 53 <= DecodedStream.end_ r \/
   2 ^ 53 <= DecodedStream.lastWithdrawnAt r \/
   2 ^ 53 <= DecodedStream.start r \/
   2 ^ 53 <= DecodedStream.period r \/
   2 ^ 53 <= DecodedStream.cliff r \/
   2 ^ 53 <= DecodedStream.withdrawalFrequency r)%Z.

(** The round trip of the amount scaler. *)
Definition round_trip (x : number) (decimals : nat) : result number :=
  let! units := getBN x decimals in getNumberFromBN units decimals.


(** The code's test value [(2 ** 53 - 1) / 10 ** decimals]. *)
Definition threshold (decimals : nat) : number :=
  number_div (Finite (inject_Z MAX_SAFE)) (pow10 decimals).

(** The bytes of the encoder as the [BN] elements the program pushes. *)
Definition bn_bytes (bytes : list byte) : list BN :=
  map (fun elem => Z.of_N (Byte.to_N elem)) bytes.

(** The name and span of every field of a layout. *)
Definition spans_of (fields : list Layout) : list (string * nat) :=
  map (fun fd => (property fd, getSpan fd)) fields.

(** The integer, key and flag properties of the layout, each with the field
    of the decoded record that [decodeStream] builds from it. *)
Definition integer_fields : list (string * (DecodedStream.t -> BN)) :=
  [ ("magic", DecodedStream.magic); ("version", DecodedStream.version);
    ("created_at", DecodedStream.createdAt);
    ("withdrawn_amount", DecodedStream.withdrawnAmount);
    ("canceled_at", DecodedStream.canceledAt);
    ("end_time", DecodedStream.end_);
    ("last_withdrawn_at", DecodedStream.lastWithdrawnAt);
    ("streamdao_fee_total", DecodedStream.streamdaoFeeTotal);
    ("streamdao_fee_withdrawn", DecodedStream.streamdaoFeeWithdrawn);
    ("streamdao_fee_percent", DecodedStream.streamdaoFeePercent);
    ("partner_fee_total", DecodedStream.partnerFeeTotal);
    ("partner_fee_withdrawn", DecodedStream.partnerFeeWithdrawn);
    ("partner_fee_percent", DecodedStream.partnerFeePercent);
    ("start_time", DecodedStream.start);
    ("net_deposited_amount", DecodedStream.depositedAmount);
    ("period", DecodedStream.period);
    ("amount_per_period", DecodedStream.amountPerPeriod);
    ("cliff", DecodedStream.cliff);
    ("cliff_amount", DecodedStream.cliffAmount);
    ("withdraw_frequency", DecodedStream.withdrawalFrequency) ].

Definition key_fields : list (string * (DecodedStream.t -> PublicKey)) :=
  [ ("sender", DecodedStream.sender);
    ("sender_tokens", DecodedStream.senderTokens);
    ("recipient", DecodedStream.recipient);
    ("recipient_tokens", DecodedStream.recipientTokens);
    ("mint", DecodedStream.mint);
    ("escrow_tokens", DecodedStream.escrowTokens);
    ("streamdao_treasury", DecodedStream.streamdaoTreasury);
    ("streamdao_treasury_tokens", DecodedStream.streamdaoTreasuryTokens);
    ("partner", DecodedStream.partner);
    ("partner_tokens", DecodedStream.partnerTokens) ].

Definition flag_fields : list (string * (DecodedStream.t -> bool)) :=
  [ ("cancelable_by_sender", DecodedStream.cancelableBySender);
    ("cancelable_by_recipient", DecodedStream.cancelableByRecipient);
    ("automatic_withdrawal", DecodedStream.automaticWithdrawal);
    ("transferable_by_sender", DecodedStream.transferableBySender);
    ("transferable_by_recipient", DecodedStream.transferableByRecipient);
    ("can_topup", DecodedStream.canTopup) ].

(** The record [r] holds what the layout assigns to each property of [buf]:
    integers as unsigned little-endian values, keys as the big-endian value
    of their bytes, flags as "not zero", the name as the decoded text. *)
Definition reads_layout (dec : list byte -> jsstring) (buf : list byte)
    (r : DecodedStream.t) : Prop :=
  Forall (fun e => snd e r = BN_le (field_bytes buf (fst e))) integer_fields /\
  Forall (fun e => _bn (snd e r) = be_decode (field_bytes buf (fst e))) key_fields /\
  Forall (fun e => snd e r = Boolean (le_decode (field_bytes buf (fst e)))) flag_fields /\
  DecodedStream.name r = dec (field_bytes buf "stream_name").

(** ** Reference definitions for the statements on the name encoder *)

(** What the specification's words "UTF-8" and "by Unicode code point" mean,
    after the Unicode standard (chapter 3): written independently of the
    encoder above, to state what it computes. *)

(** The payload of a UTF-8 continuation byte, 10xxxxxx. *)
Definition continuation (x : byte) : option N :=
  let n := Byte.to_N x in
  if ((0x80 <=? n) && (n <=? 0xBF))%N then Some (n - 0x80)%N else None.

(** The scalar value that a byte sequence encodes when it is the well-formed
    UTF-8 form of exactly one (Unicode, table 3-7: the shortest form only,
    no surrogate, nothing above U+10FFFF). *)
Definition utf8_scalar (bytes : list byte) : option N :=
  match bytes with
  | [a] =>
      let n := Byte.to_N a in
      if (n <? 0x80)%N then Some n else None
  | [a; b] =>
      let n := Byte.to_N a in
      match continuation b with
      | Some y =>
          let c := ((n - 0xC0) * 0x40 + y)%N in
          if ((0xC0 <=? n) && (n <=? 0xDF) && (0x80 <=? c))%N then Some c else None
      | None => None
      end
  | [a; b; c] =>
      let n := Byte.to_N a in
      match continuation b, continuation c with
      | Some y, Some z =>
          let c := ((n - 0xE0) * 0x1000 + y * 0x40 + z)%N in
          if ((0xE0 <=? n) && (n <=? 0xEF) && (0x800 <=? c)
              && negb ((0xD800 <=? c) && (c <=? 0xDFFF)))%N
          then Some c else None
      | _, _ => None
      end
  | [a; b; c; d] =>
      let n := Byte.to_N a in
      match continuation b, continuation c, continuation d with
      | Some y, Some z, Some w =>
          let c := ((n - 0xF0) * 0x40000 + y * 0x1000 + z * 0x40 + w)%N in
          if ((0xF0 <=? n) && (n <=? 0xF7) && (0x10000 <=? c) && (c <=? 0x10FFFF))%N
          then Some c else None
      | _, _, _ => None
      end
  | _ => None
  end.

(** A code unit is a leading (high) or a trailing (low) surrogate. *)
Definition leading (u : N) : Prop := (0xD800 <= u <= 0xDBFF)%N.
Definition trailing (u : N) : Prop := (0xDC00 <= u <= 0xDFFF)%N.

(** The iteration cuts the text into pieces of one code unit or of a
    surrogate pair, loses nothing and never parts a pair. *)
Definition by_code_point (text : jsstring) (characters : list jsstring) : Prop :=
  concat characters = text /\
  Forall (fun char => (exists u, char = [u]) \/
                      (exists h l, char = [h; l] /\ leading h /\ trailing l)) characters /\
  (forall i h l rest, characters !! i = Some [h] ->
     characters !! S i = Some (l :: rest) -> ~ (leading h /\ trailing l)).

(** ** Sample inputs *)

(** 535 bytes, all 0xFF. *)
Definition all_ones : list byte := replicate 535 xff.

(** 535 zero bytes. *)
Definition all_zero : list byte := replicate 535 x00.

(** 535 zero bytes but for a 1 at offset 17. *)
Definition canceled_marker : list byte := <[17 := x01]> (replicate 535 x00).

(** 463 zero bytes: every flag is inside, the name and the last field are
    not. *)
Definition short_record : list byte := replicate 463 x00.

(** A decoder and a key printer to run the codec on the samples. *)
Definition no_text : list byte -> jsstring := fun _ => [].
Definition no_base58 : PublicKey -> string := fun _ => "".

(** Seventy times the letter a. *)
Definition seventy_a : jsstring := replicate 70 97%N.

(** A stand-in for the seed hash and the curve test, to run the search: the
    candidate is the seeds and the namespace laid end to end, and it is off
    the curve when its last byte is 2. *)
Definition sample_hash (seeds : list (list byte)) (programId : list byte) : list byte :=
  concat seeds ++ programId.
Definition sample_curve (address : list byte) : bool :=
  match last address with
  | Some x => negb (Byte.eqb x x02)
  | None => true
  end.

(** ** Binary64 values of the kernel, to test the Number model *)

Module DoubleCheck.
Import PrimFloat SpecFloat.

(** The Number a binary64 value of the kernel denotes. *)
Definition number_of_float (f : float) : number :=
  match FloatOps.Prim2SF f with
  | S754_zero _ => Finite 0
  | S754_infinity s => Infinity s
  | S754_nan => NaN
  | S754_finite s m e =>
      Finite (Qred (Qmake ((if s then -1 else 1) * (Zpos m * pow2 e))
                          (Z.to_pos (pow2 (- e)))))
  end.

(** Equality of Numbers, the finite ones being in lowest terms. *)
Definition number_eqb (x y : number) : bool :=
  match x, y with
  | NaN, NaN => true
  | Infinity s, Infinity t => Bool.eqb s t
  | Finite p, Finite q => (Qnum p =? Qnum q)%Z && (Qden p =? Qden q)%positive
  | _, _ => false
  end.

(** Sample values: small and large integers, fractions, subnormal and
    extreme values, infinities and NaN. *)
Definition samples : list float :=
  [ 0; 1; 3; 100; 1 / 10; 57 / 100; 3 / 2; -7 / 5; 1000000;
    9007199254740991; 9007199254740991 / 1000000; 10000000000000000000000;
    FloatOps.SF2Prim (S754_finite false 1 (-1074));
    FloatOps.SF2Prim (S754_finite false 9007199254740991 971);
    infinity; nan ]%float.

(** The model and the kernel agree on [a * b], on [a / b] (for a divisor
    other than zero, whose sign the model does not keep) and on [a > b]. *)
Definition agree (a b : float) : bool :=
  number_eqb (number_mul (number_of_float a) (number_of_float b))
             (number_of_float (a * b)) &&
  (PrimFloat.is_zero b || number_eqb (number_div (number_of_float a) (number_of_float b))
                           (number_of_float (a / b))) &&
  Bool.eqb (number_gt (number_of_float a) (number_of_float b)) (ltb b a).

End DoubleCheck.

(** ** Stream.get (sdk.ts, lines 403-450) *)

(** [x - y] *)
Definition number_sub (x y : number) : number :=
  match x, y with
  | NaN, _ | _, NaN => NaN
  | Infinity s, Infinity t => if Bool.eqb s t then NaN else Infinity s
  | Infinity s, Finite _ => Infinity s
  | Finite _, Infinity t => Infinity (negb t)
  | Finite p, Finite q => round (p - q)
  end.

(** [ToNumber] of a property that may be undefined: undefined is NaN. *)
Definition ToNumber (v : option number) : number :=
  match v with
  | Some n => n
  | None => NaN
  end.

(** An entry of the scan's answer: [account.pubkey] and
    [account.account.data]. *)
Record Account : Type := { pubkey : PublicKey; data : list byte }.

(** [{ ...o, [k]: v }]: a fresh object with the properties of [o] in their
    order and [k] set to [v]; a key that [o] has keeps its place, a new one
    goes last. (The keys here are base58 texts of 32-byte keys, at least 32
    characters long, never array indices, so property order is insertion
    order.) *)
Fixpoint obj_set {V : Type} (o : list (string * V)) (k : string) (v : V)
    : list (string * V) :=
  match o with
  | [] => [(k, v)]
  | (k', v') :: rest =>
      if decide (k' = k) then (k, v) :: rest else (k', v') :: obj_set rest k v
  end.

(** [Array.prototype.sort(comparefn)], as a stable insertion sort: an
    element moves behind another only when the comparator's value for the
    pair is greater than zero (a NaN counts as zero). *)
Fixpoint sort_insert {A : Type} (comparefn : A -> A -> number) (x : A) (l : list A)
    : list A :=
  match l with
  | [] => [x]
  | y :: rest =>
      if number_gt (comparefn x y) (Finite 0)
      then y :: sort_insert comparefn x rest
      else x :: l
  end.

Fixpoint Array_sort {A : Type} (comparefn : A -> A -> number) (l : list A) : list A :=
  match l with
  | [] => []
  | x :: rest => sort_insert comparefn x (Array_sort comparefn rest)
  end.

(** [stream.startTime]: [formatDecodedStream] builds no such property (the
    start is under [start]), so the read gives undefined. *)
Definition startTime (stream : Stream.t) : option number := None.

(** The comparator of [get]: [stream2.startTime - stream1.startTime]. *)
Definition by_startTime (e1 e2 : string * Stream.t) : number :=
  number_sub (ToNumber (startTime (snd e2))) (ToNumber (startTime (snd e1))).

Section Listing.

Variable TextDecoder_decode : list byte -> jsstring.
Variable toBase58 : PublicKey -> string.

(** [getProgramAccounts(connection, wallet, offset, cluster)], the answer of
    the ledger's scan for one connection, wallet and cluster: the program's
    accounts that pass the memcmp filter at [offset]. *)
Variable getProgramAccounts : nat -> list Account.

(** The accounts [get] fetches for a direction. *)
Definition fetched (direction : string) : list Account :=
  if decide (direction = "all")
  then getProgramAccounts STREAM_STRUCT_OFFSET_SENDER
       ++ getProgramAccounts STREAM_STRUCT_OFFSET_RECIPIENT
  else getProgramAccounts
         (if decide (direction = "outgoing")
          then STREAM_STRUCT_OFFSET_SENDER
          else STREAM_STRUCT_OFFSET_RECIPIENT).

(** The [accounts.forEach] loop: every account is decoded and formatted and
    stored under its id; the first exception ends the loop. *)
Fixpoint collect (accounts : list Account) (streams : list (string * Stream.t))
    : result (list (string * Stream.t)) :=
  match accounts with
  | [] => Ok streams
  | account :: rest =>
      let! decoded := getOne TextDecoder_decode toBase58 (data account) in
      collect rest (obj_set streams (toBase58 (pubkey account)) decoded)
  end.

Definition get (type direction : string) : result (list (string * Stream.t)) :=
  let accounts := fetched direction in
  let! streams := collect accounts [] in
  let sortedStreams := Array_sort by_startTime streams in
  if decide (type = "all") then Ok sortedStreams
  else if decide (type = "stream")
       then Ok (filter (fun stream => Stream.canTopup (snd stream) = true) sortedStreams)
       else Ok (filter (fun stream => Stream.canTopup (snd stream) = false) sortedStreams).

End Listing.

(** The id under which [get] stores an account. *)
Definition account_id (toBase58 : PublicKey -> string) (account : Account) : string :=
  toBase58 (pubkey account).

(** ** Helpers of the further statements *)

(** The flag properties of the layout with their offsets. *)
Definition flag_offsets : list (nat * (DecodedStream.t -> bool)) :=
  [ (457, DecodedStream.cancelableBySender);
    (458, DecodedStream.cancelableByRecipient);
    (459, DecodedStream.automaticWithdrawal);
    (460, DecodedStream.transferableBySender);
    (461, DecodedStream.transferableByRecipient);
    (462, DecodedStream.canTopup) ].

(** The number fields of a formatted stream with the integer fields they are
    converted from. *)
Definition number_fields : list ((Stream.t -> number) * (DecodedStream.t -> BN)) :=
  [ (Stream.magic, DecodedStream.magic);
    (Stream.version, DecodedStream.version);
    (Stream.createdAt, DecodedStream.createdAt);
    (Stream.canceledAt, DecodedStream.canceledAt);
    (Stream.end_, DecodedStream.end_);
    (Stream.lastWithdrawnAt, DecodedStream.lastWithdrawnAt);
    (Stream.streamdaoFeePercent, DecodedStream.streamdaoFeePercent);
    (Stream.partnerFeePercent, DecodedStream.partnerFeePercent);
    (Stream.start, DecodedStream.start);
    (Stream.period, DecodedStream.period);
    (Stream.cliff, DecodedStream.cliff);
    (Stream.withdrawalFrequency, DecodedStream.withdrawalFrequency) ].

(** The amount fields, which [formatDecodedStream] passes on as they are. *)
Definition amount_fields : list ((Stream.t -> BN) * (DecodedStream.t -> BN)) :=
  [ (Stream.withdrawnAmount, DecodedStream.withdrawnAmount);
    (Stream.streamdaoFeeTotal, DecodedStream.streamdaoFeeTotal);
    (Stream.streamdaoFeeWithdrawn, DecodedStream.streamdaoFeeWithdrawn);
    (Stream.partnerFeeTotal, DecodedStream.partnerFeeTotal);
    (Stream.partnerFeeWithdrawn, DecodedStream.partnerFeeWithdrawn);
    (Stream.depositedAmount, DecodedStream.depositedAmount);
    (Stream.amountPerPeriod, DecodedStream.amountPerPeriod);
    (Stream.cliffAmount, DecodedStream.cliffAmount) ].

(** The key fields, which [formatDecodedStream] prints with [toBase58]. *)
Definition printed_keys : list ((Stream.t -> string) * (DecodedStream.t -> PublicKey)) :=
  [ (Stream.sender, DecodedStream.sender);
    (Stream.senderTokens, DecodedStream.senderTokens);
    (Stream.recipient, DecodedStream.recipient);
    (Stream.recipientTokens, DecodedStream.recipientTokens);
    (Stream.mint, DecodedStream.mint);
    (Stream.escrowTokens, DecodedStream.escrowTokens);
    (Stream.streamdaoTreasury, DecodedStream.streamdaoTreasury);
    (Stream.streamdaoTreasuryTokens, DecodedStream.streamdaoTreasuryTokens);
    (Stream.partner, DecodedStream.partner);
    (Stream.partnerTokens, DecodedStream.partnerTokens) ].

(** The flags, which [formatDecodedStream] copies. *)
Definition copied_flags : list ((Stream.t -> bool) * (DecodedStream.t -> bool)) :=
  [ (Stream.cancelableBySender, DecodedStream.cancelableBySender);
    (Stream.cancelableByRecipient, DecodedStream.cancelableByRecipient);
    (Stream.automaticWithdrawal, DecodedStream.automaticWithdrawal);
    (Stream.transferableBySender, DecodedStream.transferableBySender);
    (Stream.transferableByRecipient, DecodedStream.transferableByRecipient);
    (Stream.canTopup, DecodedStream.canTopup) ].

(** The formatted record [s] holds the values of the decoded record [r]:
    every converted field is exactly the decoded integer, the amounts are
    the same integers, the keys are the printed keys, flags and name are
    copied. *)
Definition formatted_from (b58 : PublicKey -> string) (r : DecodedStream.t)
    (s : Stream.t) : Prop :=
  Forall (fun e => fst e s = Finite (inject_Z (snd e r))) number_fields /\
  Forall (fun e => fst e s = snd e r) amount_fields /\
  Forall (fun e => fst e s = b58 (snd e r)) printed_keys /\
  Forall (fun e => fst e s = snd e r) copied_flags /\
  Stream.name s = DecodedStream.name r.

(** The memcmp filter of the accounts scan (sdk.ts, lines 459-466): the
    cluster returns only accounts whose data holds the wallet's 32 bytes at
    the filter's offset. *)
Definition memcmp_filtered (wallet : PublicKey) (getProgramAccounts : nat -> list Account) : Prop :=
  forall offset account, account ∈ getProgramAccounts offset ->
    slice (data account) offset (offset + 32) = toBuffer wallet.

(** Sample accounts for a scan: two well-formed records under two ids,
    found at the two offsets the listing scans. *)
Definition sample_scan (offset : nat) : list Account :=
  if bool_decide (offset = STREAM_STRUCT_OFFSET_SENDER \/ offset = STREAM_STRUCT_OFFSET_RECIPIENT)
  then [ {| pubkey := {| _bn := 1 |}; data := all_zero |};
         {| pubkey := {| _bn := 2 |}; data := all_zero |} ]
  else [].

(** A key printer that tells the sample ids apart. *)
Definition sample_base58 (key : PublicKey) : string :=
  if (_bn key =? 1)%N then "one" else if (_bn key =? 0)%N then "zero" else "two".

(** * Proofs *)

(** ** Numbers and the amount scaler *)

Local Open Scope Z_scope.

Lemma Qred_inject_Z z : Qred (inject_Z z) = inject_Z z.
Proof. apply Qcanon.Qred_identity. cbn. apply Z.gcd_1_r. Qed.

Lemma round_compat p q : (p == q)%Q -> round p = round q.
Proof. intros Heq. unfold round. rewrite (Qred_complete p q Heq). reflexivity. Qed.

Lemma pow2_nonneg k : 0 <= k -> pow2 k = 2 ^ k.
Proof. intros Hk. unfold pow2. rewrite Z.max_r by lia. reflexivity. Qed.

Lemma pow2_nonpos k : k <= 0 -> pow2 k = 1.
Proof. intros Hk. unfold pow2. rewrite Z.max_l by lia. reflexivity. Qed.

Lemma div_half_even_1 a : div_half_even a 1 = a.
Proof.
  unfold div_half_even. rewrite Z.div_1_r, Z.mod_1_r. reflexivity.
Qed.

Lemma ilog2_integer p : ilog2 p 1 = Z.log2 (Zpos p).
Proof.
  unfold ilog2. change (Z.log2 1) with 0. rewrite Z.sub_0_r.
  pose proof (Z.log2_nonneg (Zpos p)) as Hl.
  rewrite pow2_nonpos by lia. rewrite (pow2_nonneg _ Hl).
  destruct (Z.log2_spec (Zpos p)) as [Hlo _]; [lia|].
  destruct (Z.ltb_spec (Zpos p * 1) (1 * 2 ^ Z.log2 (Zpos p))); [lia|reflexivity].
Qed.

Lemma round_pos_integer s p :
  Zpos p < 2 ^ 53 ->
  round_pos s p 1 = Finite (inject_Z ((if s then -1 else 1) * Zpos p)).
Proof.
  intros Hp. unfold round_pos. rewrite ilog2_integer.
  pose proof (Z.log2_nonneg (Zpos p)) as Hl.
  assert (Z.log2 (Zpos p) < 53) as Hl' by (apply Z.log2_lt_pow2; lia).
  rewrite Z.max_l by lia.
  set (c := 52 - Z.log2 (Zpos p)).
  replace (- (Z.log2 (Zpos p) - 52)) with c by (unfold c; lia).
  replace (Z.log2 (Zpos p) - 52) with (- c) by (unfold c; lia).
  assert (0 <= c <= 52) as Hc by (unfold c; lia).
  rewrite (pow2_nonneg c) by lia. rewrite (pow2_nonpos (- c)) by lia.
  rewrite !Z.mul_1_r, div_half_even_1.
  assert (0 < 2 ^ c) as Hpos by (apply Z.pow_pos_nonneg; lia).
  assert (2 ^ c <= 2 ^ 52) as Hc52 by (apply Z.pow_le_mono_r; lia).
  destruct (Z.leb_spec (2 ^ 1024 * 2 ^ c) (Zpos p * 2 ^ c)) as [Hov|_].
  { exfalso. assert (2 ^ 53 < 2 ^ 1024) by (apply Z.pow_lt_mono_r; lia). nia. }
  f_equal. rewrite <- Qred_inject_Z. apply Qred_complete.
  unfold Qeq. cbn [Qnum Qden inject_Z]. rewrite Z2Pos.id by exact Hpos. lia.
Qed.

Lemma round_Z z : Z.abs z < 2 ^ 53 -> round (inject_Z z) = Finite (inject_Z z).
Proof.
  intros Hz. unfold round. rewrite Qred_inject_Z. cbn [Qnum Qden inject_Z].
  destruct z as [|p|p].
  - reflexivity.
  - rewrite round_pos_integer by exact Hz. f_equal.
  - rewrite round_pos_integer by exact Hz. f_equal.
Qed.

Lemma pow10_exact d : (d <= 15)%nat -> pow10 d = Finite (inject_Z (10 ^ Z.of_nat d)).
Proof.
  intros Hd. unfold pow10. apply round_Z.
  assert (0 < 10 ^ Z.of_nat d) by (apply Z.pow_pos_nonneg; lia).
  assert (10 ^ Z.of_nat d <= 10 ^ 15) by (apply Z.pow_le_mono_r; lia).
  rewrite Z.abs_eq by lia.
  eapply Z.le_lt_trans; [eassumption|]. reflexivity.
Qed.

Lemma pow10_exact_22 d : (d <= 22)%nat -> pow10 d = Finite (inject_Z (10 ^ Z.of_nat d)).
Proof.
  intros Hd. do 23 (destruct d as [|d]; [vm_compute; reflexivity|]). lia.
Qed.

Lemma BN_of_number_Z z :
  Z.abs z < 2 ^ 53 -> BN_of_number (Finite (inject_Z z)) = Ok z.
Proof.
  intros Hz. unfold BN_of_number.
  destruct (Qle_bool (inject_Z (2 ^ 53)) (Qabs (inject_Z z))) eqn:Hle.
  - apply Qle_bool_iff in Hle. unfold Qle in Hle. cbn in Hle. lia.
  - unfold trunc. cbn [Qnum Qden inject_Z]. rewrite Z.quot_1_r. reflexivity.
Qed.

Lemma threshold_integer d :
  (d <= 15)%nat ->
  exists f, threshold d = Finite f /\
    (inject_Z (MAX_SAFE / 10 ^ Z.of_nat d) <= f)%Q /\
    (f < inject_Z (MAX_SAFE / 10 ^ Z.of_nat d + 1))%Q.
Proof.
  intros Hd.
  do 16 (destruct d as [|d];
    [eexists; split; [vm_compute; reflexivity | split; vm_compute; congruence]|]).
  lia.
Qed.

Lemma toNumber_safe v : Z.abs v < 2 ^ 53 -> toNumber v = Ok (Finite (inject_Z v)).
Proof.
  intros Hv. unfold toNumber.
  destruct (Z.ltb_spec (Z.abs v) (2 ^ 53)); [reflexivity|lia].
Qed.

Lemma toNumber_unsafe v : 2 ^ 53 <= Z.abs v -> toNumber v = Throw AssertionError.
Proof.
  intros Hv. unfold toNumber.
  destruct (Z.ltb_spec (Z.abs v) (2 ^ 53)); [lia|reflexivity].
Qed.

Lemma pow10_pos d : 0 < 10 ^ Z.of_nat d.
Proof. apply Z.pow_pos_nonneg; lia. Qed.

Lemma pow10_safe d : (d <= 15)%nat -> Z.abs (10 ^ Z.of_nat d) < 2 ^ 53.
Proof.
  intros Hd. pose proof (pow10_pos d).
  assert (10 ^ Z.of_nat d <= 10 ^ 15) by (apply Z.pow_le_mono_r; lia).
  rewrite Z.abs_eq by lia. eapply Z.le_lt_trans; [eassumption|]. reflexivity.
Qed.

Lemma number_mul_Z x y :
  Z.abs (x * y) < 2 ^ 53 ->
  number_mul (Finite (inject_Z x)) (Finite (inject_Z y)) = Finite (inject_Z (x * y)).
Proof.
  intros Hxy. cbn [number_mul].
  rewrite (round_compat _ (inject_Z (x * y))); [apply round_Z; exact Hxy|].
  unfold Qeq. cbn. lia.
Qed.

Lemma getBN_integer x d :
  0 <= x < 2 ^ 53 -> (d <= 15)%nat ->
  getBN (Finite (inject_Z x)) d = Ok (x * 10 ^ Z.of_nat d).
Proof.
  intros Hx Hd. unfold getBN. fold (threshold d).
  destruct (threshold_integer d Hd) as (f & -> & Hlo & Hhi).
  pose proof (pow10_pos d) as Hpos. pose proof (pow10_safe d Hd) as Hsafe.
  rewrite (pow10_exact d Hd). cbn [number_gt].
  destruct (inject_Z x ?= f)%Q eqn:Hc.
  1,2: assert (inject_Z x <= f)%Q as Hle by (apply Qle_alt; congruence).
  1,2: assert (x < MAX_SAFE / 10 ^ Z.of_nat d + 1) as Hlt
         by (rewrite Zlt_Qlt; eapply Qle_lt_trans; eassumption).
  1,2: assert (x * 10 ^ Z.of_nat d <= MAX_SAFE) as Hprod
         by (pose proof (Z.mul_div_le MAX_SAFE _ Hpos); nia).
  1,2: rewrite number_mul_Z by (unfold MAX_SAFE in Hprod; lia).
  1,2: apply BN_of_number_Z; unfold MAX_SAFE in Hprod; lia.
  rewrite BN_of_number_Z by lia. rewrite BN_of_number_Z by exact Hsafe. reflexivity.
Qed.

Lemma getBN_big_branch q d :
  (d <= 15)%nat -> (q < inject_Z (2 ^ 53))%Q ->
  number_gt (Finite q) (threshold d) = true ->
  getBN (Finite q) d = Ok (trunc q * 10 ^ Z.of_nat d).
Proof.
  intros Hd Hq Hgt. unfold getBN. fold (threshold d). rewrite Hgt.
  destruct (threshold_integer d Hd) as (f & Hf & Hlo & _).
  rewrite Hf in Hgt. cbn [number_gt] in Hgt.
  assert (f < q)%Q as Hfq.
  { apply Qgt_alt. destruct (q ?= f)%Q; [discriminate|discriminate|reflexivity]. }
  assert (0 <= q)%Q as Hq0.
  { apply Qlt_le_weak. eapply Qle_lt_trans; [|exact Hfq].
    eapply Qle_trans; [|exact Hlo].
    change 0%Q with (inject_Z 0). rewrite <- Zle_Qle.
    apply Z.div_pos; [unfold MAX_SAFE; lia | apply pow10_pos]. }
  cbn [BN_of_number].
  destruct (Qle_bool (inject_Z (2 ^ 53)) (Qabs q)) eqn:Hle.
  { apply Qle_bool_iff in Hle. rewrite (Qabs_pos q Hq0) in Hle.
    exfalso. exact (Qlt_not_le _ _ Hq Hle). }
  cbn [bind]. rewrite (pow10_exact d Hd).
  rewrite BN_of_number_Z by (apply pow10_safe; exact Hd). reflexivity.
Qed.

Lemma getNumberFromBN_big v d :
  MAX_SAFE < v -> (d <= 15)%nat -> v / 10 ^ Z.of_nat d < 2 ^ 53 ->
  getNumberFromBN v d = Ok (Finite (inject_Z (v / 10 ^ Z.of_nat d))).
Proof.
  intros Hv Hd Hq. unfold getNumberFromBN.
  rewrite (BN_of_number_Z MAX_SAFE) by (vm_compute; reflexivity). cbn [bind].
  destruct (Z.gtb_spec v MAX_SAFE) as [_|Hle]; [|lia].
  rewrite (pow10_exact d Hd).
  rewrite BN_of_number_Z by (apply pow10_safe; exact Hd). cbn [bind].
  pose proof (pow10_pos d) as Hpos. unfold BN_div.
  destruct (Z.eqb_spec (10 ^ Z.of_nat d) 0) as [Hz|_]; [lia|]. cbn [bind].
  assert (0 <= v) by (unfold MAX_SAFE in Hv; lia).
  rewrite Z.quot_div_nonneg by lia.
  apply toNumber_safe.
  assert (0 <= v / 10 ^ Z.of_nat d) by (apply Z.div_pos; lia). lia.
Qed.

Lemma getNumberFromBN_small v d :
  - 2 ^ 53 < v <= MAX_SAFE ->
  getNumberFromBN v d = Ok (number_div (Finite (inject_Z v)) (pow10 d)).
Proof.
  intros Hv. unfold getNumberFromBN.
  rewrite (BN_of_number_Z MAX_SAFE) by (vm_compute; reflexivity). cbn [bind].
  destruct (Z.gtb_spec v MAX_SAFE) as [Hgt|_]; [lia|].
  rewrite toNumber_safe by (unfold MAX_SAFE in Hv; lia). reflexivity.
Qed.

Lemma number_div_pow10 p d :
  (d <= 22)%nat ->
  number_div (Finite p) (pow10 d) = round (p / inject_Z (10 ^ Z.of_nat d)).
Proof.
  intros Hd. rewrite (pow10_exact_22 d Hd). cbn [number_div].
  unfold is_zero. cbn [Qnum inject_Z].
  pose proof (pow10_pos d).
  destruct (Z.eqb_spec (10 ^ Z.of_nat d) 0); [lia|reflexivity].
Qed.

Lemma threshold_below d :
  (d <= 22)%nat ->
  exists f, threshold d = Finite f /\
    (inject_Z (MAX_SAFE - 1) / inject_Z (10 ^ Z.of_nat d) <= f)%Q.
Proof.
  intros Hd.
  do 23 (destruct d as [|d];
    [eexists; split; [vm_compute; reflexivity | vm_compute; congruence]|]).
  lia.
Qed.




Lemma integer_above_threshold x d :
  0 <= x < 2 ^ 53 -> (d <= 15)%nat -> MAX_SAFE < x * 10 ^ Z.of_nat d ->
  number_gt (Finite (inject_Z x)) (threshold d) = true.
Proof.
  intros Hx Hd Hprod.
  destruct (threshold_integer d Hd) as (f & -> & _ & Hhi).
  pose proof (pow10_pos d) as Hpos.
  assert (MAX_SAFE / 10 ^ Z.of_nat d < x) as Hdiv
    by (apply Z.div_lt_upper_bound; lia).
  assert (f < inject_Z x)%Q as Hlt.
  { eapply Qlt_le_trans; [exact Hhi|]. rewrite <- Zle_Qle. lia. }
  cbn [number_gt]. apply Qgt_alt in Hlt. rewrite Hlt. reflexivity.
Qed.

Lemma getNumberFromBN_overflow v d :
  MAX_SAFE < v -> (d <= 15)%nat -> 2 ^ 53 <= v / 10 ^ Z.of_nat d ->
  getNumberFromBN v d = Throw AssertionError.
Proof.
  intros Hv Hd Hq. unfold getNumberFromBN.
  rewrite (BN_of_number_Z MAX_SAFE) by (vm_compute; reflexivity). cbn [bind].
  destruct (Z.gtb_spec v MAX_SAFE) as [_|Hle]; [|lia].
  rewrite (pow10_exact d Hd).
  rewrite BN_of_number_Z by (apply pow10_safe; exact Hd). cbn [bind].
  pose proof (pow10_pos d) as Hpos. unfold BN_div.
  destruct (Z.eqb_spec (10 ^ Z.of_nat d) 0) as [Hz|_]; [lia|]. cbn [bind].
  assert (0 <= v) by (unfold MAX_SAFE in Hv; lia).
  rewrite Z.quot_div_nonneg by lia.
  apply toNumber_unsafe. lia.
Qed.

(** ** Where the conversions of bn.js return *)

Lemma BN_of_number_error x e : BN_of_number x = Throw e -> e = AssertionError.
Proof.
  destruct x as [|s|q]; cbn [BN_of_number]; [discriminate| |].
  - intros H. injection H as <-. reflexivity.
  - destruct (Qle_bool (inject_Z (2 ^ 53)) (Qabs q)); [|discriminate].
    intros H. injection H as <-. reflexivity.
Qed.

Lemma threshold_finite d : (d <= 22)%nat -> exists f, threshold d = Finite f.
Proof.
  intros Hd. destruct (threshold_below d Hd) as (f & Hf & _). exists f. exact Hf.
Qed.

Lemma pow10_unsafe d :
  (16 <= d <= 22)%nat -> BN_of_number (pow10 d) = Throw AssertionError.
Proof.
  intros [Hlo Hhi]. rewrite (pow10_exact_22 d Hhi). cbn [BN_of_number].
  assert (10 ^ 16 <= 10 ^ Z.of_nat d) as Hpow by (apply Z.pow_le_mono_r; lia).
  destruct (Qle_bool (inject_Z (2 ^ 53)) (Qabs (inject_Z (10 ^ Z.of_nat d)))) eqn:Hle;
    [reflexivity|].
  assert (inject_Z (2 ^ 53) <= Qabs (inject_Z (10 ^ Z.of_nat d)))%Q as Habs.
  { unfold Qle. cbn [Qnum Qden Qabs inject_Z]. rewrite !Z.mul_1_r.
    change (10 ^ 16) with 10000000000000000 in Hpow.
    change (2 ^ 53) with 9007199254740992. lia. }
  apply Qle_bool_iff in Habs. congruence.
Qed.

Lemma div_half_even_lt a b n :
  0 <= a -> 0 < b -> Z.even n = true ->
  (div_half_even a b < n <-> 2 * a < (2 * n - 1) * b).
Proof.
  intros Ha Hb Hn. unfold div_half_even.
  pose proof (Z.div_mod a b ltac:(lia)) as Hdm.
  pose proof (Z.mod_pos_bound a b Hb) as Hr.
  set (d := a / b) in *. set (r := a mod b) in *.
  destruct (Z.compare_spec (2 * r) b) as [Heq|Hlt|Hgt].
  - destruct (Z.even d) eqn:Hd.
    + assert (d <> n - 1) as Hne.
      { intros ->. rewrite Z.even_sub in Hd. rewrite Hn in Hd. discriminate Hd. }
      split; intros H; nia.
    + split; intros H; nia.
  - split; intros H; nia.
  - split; intros H; nia.
Qed.

Lemma div_half_even_le a b n :
  0 <= a -> 0 < b -> a <= n * b -> div_half_even a b <= n.
Proof.
  intros Ha Hb Hn. unfold div_half_even.
  pose proof (Z.div_mod a b ltac:(lia)) as Hdm.
  pose proof (Z.mod_pos_bound a b Hb) as Hr.
  set (d := a / b) in *. set (r := a mod b) in *.
  assert (d <= n) by nia.
  destruct (Z.compare_spec (2 * r) b) as [Heq|Hlt|Hgt]; [destruct (Z.even d)| |]; nia.
Qed.

Lemma div_half_even_ge a b n :
  0 <= a -> 0 < b -> n * b <= a -> n <= div_half_even a b.
Proof.
  intros Ha Hb Hn. unfold div_half_even.
  pose proof (Z.div_mod a b ltac:(lia)) as Hdm.
  pose proof (Z.mod_pos_bound a b Hb) as Hr.
  set (d := a / b) in *. set (r := a mod b) in *.
  assert (n <= d) by nia.
  destruct (Z.compare_spec (2 * r) b) as [Heq|Hlt|Hgt]; [destruct (Z.even d)| |]; nia.
Qed.

Lemma ilog2_upper p q a b :
  0 <= a -> 0 <= b -> ilog2 p q + 1 <= a - b -> Zpos p * 2 ^ b < Zpos q * 2 ^ a.
Proof.
  intros Ha Hb. unfold ilog2.
  destruct (Z.log2_spec (Zpos p)) as [Hp1 Hp2]; [lia|].
  destruct (Z.log2_spec (Zpos q)) as [Hq1 Hq2]; [lia|].
  pose proof (Z.log2_nonneg (Zpos p)) as Hlp.
  pose proof (Z.log2_nonneg (Zpos q)) as Hlq.
  set (lp := Z.log2 (Zpos p)) in *. set (lq := Z.log2 (Zpos q)) in *.
  assert (0 < 2 ^ a) as Ha0 by (apply Z.pow_pos_nonneg; lia).
  assert (0 < 2 ^ b) as Hb0 by (apply Z.pow_pos_nonneg; lia).
  destruct (Z.ltb_spec (Zpos p * pow2 (- (lp - lq))) (Zpos q * pow2 (lp - lq))) as [Ht|Ht];
    intros He.
  - destruct (Z.le_gt_cases 0 (lp - lq)) as [Hl|Hl].
    + rewrite (pow2_nonpos (- (lp - lq))) in Ht by lia.
      rewrite (pow2_nonneg (lp - lq)) in Ht by lia.
      assert (2 ^ (lp - lq) * 2 ^ b <= 2 ^ a) as Hpow.
      { rewrite <- Z.pow_add_r by lia. apply Z.pow_le_mono_r; lia. }
      nia.
    + rewrite (pow2_nonneg (- (lp - lq))) in Ht by lia.
      rewrite (pow2_nonpos (lp - lq)) in Ht by lia.
      assert (2 ^ b <= 2 ^ a * 2 ^ (- (lp - lq))) as Hpow.
      { rewrite <- Z.pow_add_r by lia. apply Z.pow_le_mono_r; lia. }
      nia.
  - assert (2 ^ (lp + 1) * 2 ^ b <= 2 ^ a * 2 ^ lq) as Hpow.
    { rewrite <- !Z.pow_add_r by lia. apply Z.pow_le_mono_r; lia. }
    nia.
Qed.

Lemma ilog2_lower p q a b :
  0 <= a -> 0 <= b -> a - b <= ilog2 p q -> Zpos q * 2 ^ a <= Zpos p * 2 ^ b.
Proof.
  intros Ha Hb. unfold ilog2.
  destruct (Z.log2_spec (Zpos p)) as [Hp1 Hp2]; [lia|].
  destruct (Z.log2_spec (Zpos q)) as [Hq1 Hq2]; [lia|].
  pose proof (Z.log2_nonneg (Zpos p)) as Hlp.
  pose proof (Z.log2_nonneg (Zpos q)) as Hlq.
  set (lp := Z.log2 (Zpos p)) in *. set (lq := Z.log2 (Zpos q)) in *.
  assert (0 < 2 ^ a) as Ha0 by (apply Z.pow_pos_nonneg; lia).
  assert (0 < 2 ^ b) as Hb0 by (apply Z.pow_pos_nonneg; lia).
  destruct (Z.ltb_spec (Zpos p * pow2 (- (lp - lq))) (Zpos q * pow2 (lp - lq))) as [Ht|Ht];
    intros He.
  - assert (2 ^ (lq + 1) * 2 ^ a <= 2 ^ lp * 2 ^ b) as Hpow.
    { rewrite <- !Z.pow_add_r by lia. apply Z.pow_le_mono_r; lia. }
    nia.
  - destruct (Z.le_gt_cases 0 (lp - lq)) as [Hl|Hl].
    + rewrite (pow2_nonpos (- (lp - lq))) in Ht by lia.
      rewrite (pow2_nonneg (lp - lq)) in Ht by lia.
      assert (2 ^ a <= 2 ^ (lp - lq) * 2 ^ b) as Hpow.
      { rewrite <- Z.pow_add_r by lia. apply Z.pow_le_mono_r; lia. }
      nia.
    + rewrite (pow2_nonneg (- (lp - lq))) in Ht by lia.
      rewrite (pow2_nonpos (lp - lq)) in Ht by lia.
      assert (2 ^ (- (lp - lq)) * 2 ^ a <= 2 ^ b) as Hpow.
      { rewrite <- Z.pow_add_r by lia. apply Z.pow_le_mono_r; lia. }
      nia.
Qed.

Lemma Qabs_Qred_lt m den B :
  (Qabs (Qred (Qmake m den)) < inject_Z B)%Q <-> Z.abs m < B * Zpos den.
Proof.
  rewrite (Qred_correct (Qmake m den)).
  unfold Qlt, Qabs. cbn [Qnum Qden inject_Z]. lia.
Qed.

Lemma round_pos_safe s p q :
  (exists x, round_pos s p q = Finite x /\ (Qabs x < inject_Z (2 ^ 53))%Q)
  <-> 2 * Zpos p < (2 ^ 54 - 1) * Zpos q.
Proof.
  unfold round_pos.
  set (e := Z.max (ilog2 p q) (-1022)).
  assert (2 ^ 53 < 2 ^ 1024) as Hbig by (apply Z.pow_lt_mono_r; lia).
  destruct (Z.le_gt_cases 52 e) as [He|He].
  - assert (e = ilog2 p q) as Hee by lia.
    rewrite (pow2_nonpos (- (e - 52))) by lia. rewrite (pow2_nonneg (e - 52)) by lia.
    set (k := e - 52) in *. rewrite !Z.mul_1_r.
    assert (0 < 2 ^ k) as Hk by (apply Z.pow_pos_nonneg; lia).
    set (n := div_half_even (Zpos p) (Zpos q * 2 ^ k)).
    assert (2 ^ 52 <= n) as Hn.
    { apply div_half_even_ge; [lia|nia|].
      pose proof (ilog2_lower p q e 0 ltac:(lia) ltac:(lia) ltac:(lia)) as Hlow.
      replace e with (52 + k) in Hlow by lia.
      rewrite Z.pow_add_r in Hlow by lia. lia. }
    split.
    + intros (x & Hx & Habs).
      destruct (Z.leb_spec (2 ^ 1024) (n * 2 ^ k)) as [_|_]; [discriminate Hx|].
      injection Hx as <-. apply Qabs_Qred_lt in Habs.
      assert (k = 0) as Hk0.
      { destruct (Z.eq_dec k 0) as [|Hne]; [assumption|exfalso].
        assert (2 ^ 1 <= 2 ^ k) by (apply Z.pow_le_mono_r; lia).
        change (2 ^ 1) with 2 in *. change (Z.pos (Z.to_pos 1)) with 1 in Habs.
        destruct s; nia. }
      subst n. rewrite Hk0 in *. change (2 ^ 0) with 1 in *. rewrite Z.mul_1_r in *.
      change (Z.pos (Z.to_pos 1)) with 1 in Habs. rewrite !Z.mul_1_r in Habs.
      assert (div_half_even (Z.pos p) (Z.pos q) < 2 ^ 53) as Hlt by (destruct s; lia).
      apply div_half_even_lt in Hlt; [|lia|lia|reflexivity].
      replace (2 ^ 54 - 1) with (2 * 2 ^ 53 - 1) by reflexivity. exact Hlt.
    + intros Hlt.
      assert (k = 0) as Hk0.
      { destruct (Z.eq_dec k 0) as [|Hne]; [assumption|exfalso].
        pose proof (ilog2_lower p q 53 0 ltac:(lia) ltac:(lia) ltac:(lia)) as Hlow.
        change (2 ^ 0) with 1 in Hlow. change (2 ^ 54 - 1) with (2 * 2 ^ 53 - 1) in Hlt.
        lia. }
      subst n. rewrite Hk0 in *. change (2 ^ 0) with 1 in *. rewrite !Z.mul_1_r in *.
      assert (div_half_even (Z.pos p) (Z.pos q) < 2 ^ 53) as Hdhe.
      { apply div_half_even_lt; [lia|lia|reflexivity|].
        replace (2 * 2 ^ 53 - 1) with (2 ^ 54 - 1) by reflexivity. exact Hlt. }
      destruct (Z.leb_spec (2 ^ 1024) (div_half_even (Z.pos p) (Z.pos q))) as [Hov|_]; [lia|].
      eexists. split; [reflexivity|]. apply Qabs_Qred_lt.
      change (Z.pos (Z.to_pos 1)) with 1. destruct s; lia.
  - rewrite (pow2_nonneg (- (e - 52))) by lia. rewrite (pow2_nonpos (e - 52)) by lia.
    set (c := - (e - 52)) in *. rewrite !Z.mul_1_r.
    assert (2 ^ 1 <= 2 ^ c) as Hc by (apply Z.pow_le_mono_r; lia).
    change (2 ^ 1) with 2 in Hc.
    pose proof (ilog2_upper p q 53 c ltac:(lia) ltac:(lia) ltac:(lia)) as Hup.
    set (n := div_half_even (Zpos p * 2 ^ c) (Zpos q)).
    assert (n <= 2 ^ 53) as Hn by (apply div_half_even_le; lia).
    assert (0 <= n) as Hn0 by (apply div_half_even_ge; lia).
    split.
    + intros _. change (2 ^ 54 - 1) with (2 * 2 ^ 53 - 1). nia.
    + intros _.
      destruct (Z.leb_spec (2 ^ 1024 * 2 ^ c) n) as [Hov|_]; [nia|].
      eexists. split; [reflexivity|]. apply Qabs_Qred_lt.
      rewrite Z2Pos.id by lia. destruct s; nia.
Qed.

Lemma round_safe x :
  (exists y, round x = Finite y /\ (Qabs y < inject_Z (2 ^ 53))%Q)
  <-> (Qabs x < inject_Z (2 ^ 53) - (1 # 2))%Q.
Proof.
  assert (forall r : Q, (Qabs r < inject_Z (2 ^ 53) - (1 # 2))%Q
            <-> 2 * Z.abs (Qnum r) < (2 ^ 54 - 1) * Zpos (Qden r)) as Hq.
  { intros [m den]. unfold Qlt, Qabs, Qminus, Qplus, Qopp. cbn [Qnum Qden inject_Z].
    change (2 ^ 54 - 1) with 18014398509481983. change (2 ^ 53) with 9007199254740992.
    lia. }
  assert ((Qabs x < inject_Z (2 ^ 53) - (1 # 2))%Q
          <-> (Qabs (Qred x) < inject_Z (2 ^ 53) - (1 # 2))%Q) as ->
    by (rewrite (Qred_correct x); reflexivity).
  rewrite Hq. unfold round.
  destruct (Qred x) as [m den]. cbn [Qnum Qden]. destruct m as [|p|p].
  - split; [intros _; cbn; lia|intros _]. exists 0%Q. split; [reflexivity|].
    vm_compute. reflexivity.
  - rewrite round_pos_safe. cbn [Z.abs]. reflexivity.
  - rewrite round_pos_safe. cbn [Z.abs]. reflexivity.
Qed.

Lemma round_not_NaN x : round x <> NaN.
Proof.
  unfold round. destruct (Qnum (Qred x)) as [|p|p]; [discriminate| |];
    unfold round_pos;
    match goal with |- context [if ?c then _ else _] => destruct c end; discriminate.
Qed.

Lemma BN_of_number_finite q :
  returns (BN_of_number (Finite q)) <-> (Qabs q < inject_Z (2 ^ 53))%Q.
Proof.
  cbn [BN_of_number].
  destruct (Qle_bool (inject_Z (2 ^ 53)) (Qabs q)) eqn:Hle.
  - apply Qle_bool_iff in Hle. split.
    + intros [a Ha]. discriminate Ha.
    + intros Hlt. exfalso. exact (Qlt_not_le _ _ Hlt Hle).
  - split; [intros _|intros _; eexists; reflexivity].
    apply Qnot_le_lt. intros Hge. apply Qle_bool_iff in Hge. congruence.
Qed.

Lemma BN_of_number_round x :
  returns (BN_of_number (round x)) <-> (Qabs x < inject_Z (2 ^ 53) - (1 # 2))%Q.
Proof.
  rewrite <- round_safe. destruct (round x) as [|s|y] eqn:Hx.
  - exfalso. exact (round_not_NaN x Hx).
  - split; [intros [a Ha]; discriminate Ha|intros (y & Hy & _); discriminate Hy].
  - rewrite BN_of_number_finite. split.
    + intros Hlt. exists y. split; [reflexivity|exact Hlt].
    + intros (y' & Hy & Hlt). injection Hy as <-. exact Hlt.
Qed.

Lemma threshold_nonneg d f : (d <= 22)%nat -> threshold d = Finite f -> (0 <= f)%Q.
Proof.
  intros Hd Hf. destruct (threshold_below d Hd) as (f' & Hf' & Hlo).
  rewrite Hf in Hf'. injection Hf' as <-.
  eapply Qle_trans; [|exact Hlo].
  apply Qle_shift_div_l.
  - change 0%Q with (inject_Z 0). rewrite <- Zlt_Qlt. apply pow10_pos.
  - rewrite Qmult_0_l. change 0%Q with (inject_Z 0). rewrite <- Zle_Qle.
    unfold MAX_SAFE. lia.
Qed.

Lemma BN_of_pow10_returns d :
  (d <= 22)%nat -> (returns (BN_of_number (pow10 d)) <-> (d <= 15)%nat).
Proof.
  intros Hd. destruct (le_lt_dec d 15) as [Hle|Hgt].
  - split; [intros _; exact Hle|intros _].
    rewrite (pow10_exact d Hle). eexists. apply BN_of_number_Z. apply pow10_safe. exact Hle.
  - split; [|lia]. intros [a Ha]. rewrite pow10_unsafe in Ha by lia. discriminate Ha.
Qed.

Lemma getBN_domain q d :
  (d <= 22)%nat ->
  (returns (getBN (Finite q) d) <->
   if number_gt (Finite q) (threshold d)
   then (q < inject_Z (2 ^ 53))%Q /\ (d <= 15)%nat
   else (Qabs (q * inject_Z (10 ^ Z.of_nat d)) < inject_Z (2 ^ 53) - (1 # 2))%Q).
Proof.
  intros Hd. unfold getBN. fold (threshold d).
  destruct (number_gt (Finite q) (threshold d)) eqn:Hgt.
  - destruct (threshold_finite d Hd) as (f & Hf). rewrite Hf in Hgt.
    pose proof (threshold_nonneg d f Hd Hf) as Hf0.
    cbn [number_gt] in Hgt.
    assert (f < q)%Q as Hfq.
    { apply Qgt_alt. destruct (q ?= f)%Q; [discriminate|discriminate|reflexivity]. }
    assert (0 <= q)%Q as Hq0 by (apply Qlt_le_weak; eapply Qle_lt_trans; eassumption).
    pose proof (BN_of_number_finite q) as Hq. rewrite (Qabs_pos q Hq0) in Hq.
    pose proof (BN_of_pow10_returns d Hd) as Hp.
    rewrite <- Hq, <- Hp.
    destruct (BN_of_number (Finite q)) as [a|e]; cbn [bind].
    + destruct (BN_of_number (pow10 d)) as [b|e]; cbn [bind].
      * split; [intros _; split; eexists; reflexivity|intros _; eexists; reflexivity].
      * split; [intros [x Hx]; discriminate Hx|intros [_ [x Hx]]; discriminate Hx].
    + split; [intros [x Hx]; discriminate Hx|intros [[x Hx] _]; discriminate Hx].
  - rewrite (pow10_exact_22 d Hd). cbn [number_mul]. apply BN_of_number_round.
Qed.

Lemma getNumberFromBN_domain v d :
  MAX_SAFE < v -> (d <= 22)%nat ->
  (returns (getNumberFromBN v d) <-> (d <= 15)%nat /\ v / 10 ^ Z.of_nat d < 2 ^ 53).
Proof.
  intros Hv Hd. destruct (le_lt_dec d 15) as [Hle|Hgt].
  - destruct (Z.lt_ge_cases (v / 10 ^ Z.of_nat d) (2 ^ 53)) as [Hq|Hq].
    + rewrite (getNumberFromBN_big v d Hv Hle Hq).
      split; [intros _; split; assumption|intros _; eexists; reflexivity].
    + rewrite (getNumberFromBN_overflow v d Hv Hle Hq).
      split; [intros [x Hx]; discriminate Hx|lia].
  - split; [|lia]. intros [x Hx]. unfold getNumberFromBN in Hx.
    rewrite (BN_of_number_Z MAX_SAFE) in Hx by (vm_compute; reflexivity). cbn [bind] in Hx.
    destruct (Z.gtb_spec v MAX_SAFE) as [_|Hle]; [|lia].
    rewrite pow10_unsafe in Hx by lia. discriminate Hx.
Qed.

Lemma getNumberFromBN_below v d : v <= - 2 ^ 53 -> throws (getNumberFromBN v d).
Proof.
  intros Hv. unfold getNumberFromBN.
  rewrite (BN_of_number_Z MAX_SAFE) by (vm_compute; reflexivity). cbn [bind].
  destruct (Z.gtb_spec v MAX_SAFE) as [Hgt|_]; [unfold MAX_SAFE in Hgt; lia|].
  rewrite toNumber_unsafe by lia. eexists. reflexivity.
Qed.

Lemma toNumber_throw v e : toNumber v = Throw e -> e = AssertionError.
Proof.
  unfold toNumber. destruct (Z.abs v <? 2 ^ 53); [discriminate|].
  intros H. injection H as <-. reflexivity.
Qed.

Lemma getBN_error x d e : getBN x d = Throw e -> e = AssertionError.
Proof.
  unfold getBN. destruct (number_gt x _).
  - destruct (BN_of_number x) as [a|e1] eqn:Ha; cbn [bind].
    + destruct (BN_of_number (pow10 d)) as [b|e2] eqn:Hb; cbn [bind]; [discriminate|].
      intros H. injection H as <-. exact (BN_of_number_error _ _ Hb).
    + intros H. injection H as <-. exact (BN_of_number_error _ _ Ha).
  - apply BN_of_number_error.
Qed.

Lemma getNumberFromBN_error v d e : getNumberFromBN v d = Throw e -> e = AssertionError.
Proof.
  unfold getNumberFromBN.
  rewrite (BN_of_number_Z MAX_SAFE) by (vm_compute; reflexivity). cbn [bind].
  destruct (v >? MAX_SAFE).
  - destruct (BN_of_number (pow10 d)) as [b|e1] eqn:Hb; cbn [bind].
    + unfold BN_div. destruct (b =? 0); cbn [bind].
      * intros H. injection H as <-. reflexivity.
      * apply toNumber_throw.
    + intros H. injection H as <-. exact (BN_of_number_error _ _ Hb).
  - destruct (toNumber v) as [n|e1] eqn:Hn; cbn [bind]; [discriminate|].
    intros H. injection H as <-. exact (toNumber_throw _ _ Hn).
Qed.

Lemma getBN_of_not_finite d :
  (d <= 22)%nat ->
  getBN NaN d = Ok 0 /\
  getBN (Infinity false) d = Throw AssertionError /\
  getBN (Infinity true) d = Throw AssertionError.
Proof.
  intros Hd. destruct (threshold_finite d Hd) as (f & Hf).
  unfold getBN. fold (threshold d). rewrite Hf, (pow10_exact_22 d Hd).
  pose proof (pow10_pos d) as Hpos.
  split; [reflexivity|]. split; [reflexivity|].
  cbn [number_gt number_mul]. unfold is_zero. cbn [Qnum inject_Z].
  destruct (Z.eqb_spec (10 ^ Z.of_nat d) 0); [lia|reflexivity].
Qed.

Local Close Scope Z_scope.

(** ** The Number model against the kernel's binary64 arithmetic *)

(** On every pair of the sample values the model's product, quotient and
    comparison are those of the kernel's binary64 floats. *)
Lemma model_agrees_on_samples :
  forallb (fun a => forallb (DoubleCheck.agree a) DoubleCheck.samples)
    DoubleCheck.samples = true.
Proof. vm_compute. reflexivity. Qed.

(** ** The record codec *)

Lemma struct_decode_in_range fields : forall b offset dest,
  struct_decode fields b offset dest =
  if in_range fields b offset then Ok (struct_fill fields b offset dest)
  else Throw RangeError.
Proof.
  induction fields as [|fd rest IH]; intros b offset dest; [reflexivity|].
  destruct fd as [n p|p]; cbn [struct_decode in_range struct_fill layout_decode
    pure_decode getSpan property bind andb].
  - apply IH.
  - unfold readUIntLE. destruct (decide (offset + 1 <= length b)) as [Hle|Hgt].
    + rewrite bool_decide_eq_true_2 by exact Hle. cbn [bind andb]. apply IH.
    + rewrite bool_decide_eq_false_2 by exact Hgt. reflexivity.
Qed.

Lemma struct_fill_other fields : forall b offset dest p,
  p ∉ map property fields ->
  struct_fill fields b offset dest !! p = dest !! p.
Proof.
  induction fields as [|fd rest IH]; intros b offset dest p Hp; [reflexivity|].
  cbn [struct_fill]. cbn [map] in Hp. apply not_elem_of_cons in Hp as [Hne Hrest].
  rewrite IH by exact Hrest. apply lookup_insert_ne. congruence.
Qed.

Lemma struct_fill_lookup fields : forall b offset dest p o fd,
  NoDup (map property fields) ->
  field_entry fields offset p = Some (o, fd) ->
  struct_fill fields b offset dest !! p = Some (pure_decode fd b o).
Proof.
  induction fields as [|fd rest IH]; intros b offset dest p o fd' Hnd He; [discriminate|].
  cbn [field_entry] in He. cbn [map] in Hnd. apply NoDup_cons in Hnd as [Hnotin Hnd].
  cbn [struct_fill]. destruct (decide (property fd = p)) as [<-|Hne].
  - injection He as <- <-. rewrite struct_fill_other by exact Hnotin.
    apply lookup_insert_eq.
  - eapply IH; eassumption.
Qed.

Lemma layout_names_distinct : NoDup (map property TokenStreamDataLayout).
Proof. apply (bool_decide_unpack _). vm_compute. exact I. Qed.

Lemma get_blob_fill buf p o n q :
  field_entry TokenStreamDataLayout 0 p = Some (o, blob n q) ->
  get_blob (struct_fill TokenStreamDataLayout buf 0 ∅) p = Ok (slice buf o (o + n)).
Proof.
  intros He. unfold get_blob.
  rewrite (struct_fill_lookup _ _ _ _ _ _ _ layout_names_distinct He). reflexivity.
Qed.

Lemma get_u8_fill buf p o q :
  field_entry TokenStreamDataLayout 0 p = Some (o, u8 q) ->
  get_u8 (struct_fill TokenStreamDataLayout buf 0 ∅) p = Ok (le_decode (slice buf o (o + 1))).
Proof.
  intros He. unfold get_u8.
  rewrite (struct_fill_lookup _ _ _ _ _ _ _ layout_names_distinct He). reflexivity.
Qed.

Lemma be_decode_snoc b x : be_decode (b ++ [x]) = (256 * be_decode b + Byte.to_N x)%N.
Proof. unfold be_decode. rewrite fold_left_app. reflexivity. Qed.

Lemma be_decode_bound b : (be_decode b < 256 ^ N.of_nat (length b))%N.
Proof.
  induction b as [|x b IH] using rev_ind; [cbn; lia|].
  rewrite be_decode_snoc, length_app. cbn [length].
  replace (N.of_nat (length b + 1)) with (N.succ (N.of_nat (length b))) by lia.
  rewrite N.pow_succ_r'. pose proof (Byte.to_N_bounded x). lia.
Qed.

Lemma byte_of_N_add n x : byte_of_N (256 * n + Byte.to_N x) = x.
Proof.
  unfold byte_of_N. pose proof (Byte.to_N_bounded x).
  replace ((256 * n + Byte.to_N x) mod 256)%N with (Byte.to_N x).
  - rewrite Byte.of_to_N. reflexivity.
  - symmetry. rewrite N.add_comm, N.mul_comm, N.Div0.mod_add. apply N.mod_small. lia.
Qed.

Lemma be_encode_decode b : be_encode (length b) (be_decode b) = b.
Proof.
  induction b as [|x b IH] using rev_ind; [reflexivity|].
  rewrite be_decode_snoc, length_app. cbn [length].
  replace (length b + 1) with (S (length b)) by lia. cbn [be_encode].
  rewrite byte_of_N_add. f_equal.
  replace ((256 * be_decode b + Byte.to_N x) / 256)%N with (be_decode b); [exact IH|].
  pose proof (Byte.to_N_bounded x). symmetry.
  rewrite N.add_comm, N.mul_comm, N.div_add by lia. rewrite N.div_small by lia. reflexivity.
Qed.

Lemma byteLength_bound n k : (n < 256 ^ k)%N -> (byteLength n <= k)%N.
Proof.
  intros Hn. unfold byteLength.
  destruct (N.eq_dec n 0) as [->|Hnz].
  - vm_compute (_ / _)%N. lia.
  - rewrite N.size_log2 by exact Hnz.
    assert (N.log2 n < 8 * k)%N.
    { apply N.log2_lt_pow2; [lia|]. rewrite N.pow_mul_r. exact Hn. }
    enough ((N.succ (N.log2 n) + 7) / 8 < k + 1)%N by lia.
    apply N.Div0.div_lt_upper_bound. lia.
Qed.

Lemma PublicKey_new_ok b : length b <= 32 -> PublicKey_new b = Ok {| _bn := be_decode b |}.
Proof.
  intros Hlen. unfold PublicKey_new.
  assert (byteLength (be_decode b) <= 32)%N as Hb.
  { pose proof (be_decode_bound b) as Hd.
    assert (be_decode b < 256 ^ 32)%N as Hd'.
    { eapply N.lt_le_trans; [exact Hd|]. apply N.pow_le_mono_r; lia. }
    exact (byteLength_bound _ _ Hd'). }
  destruct (N.ltb_spec 32 (byteLength (be_decode b))); [lia|reflexivity].
Qed.

Lemma slice_length b s e : length (slice b s e) <= e - s.
Proof. unfold slice. rewrite length_take. lia. Qed.

Lemma slice_length_in b s e : e <= length b -> length (slice b s e) = e - s.
Proof. intros H. unfold slice. rewrite length_take, length_drop. lia. Qed.

Lemma le_decode_bound b : (le_decode b < 256 ^ N.of_nat (length b))%N.
Proof.
  induction b as [|x b IH]; [cbn; lia|].
  cbn [le_decode length]. replace (N.of_nat (S (length b))) with (N.succ (N.of_nat (length b))) by lia.
  rewrite N.pow_succ_r'. pose proof (Byte.to_N_bounded x). lia.
Qed.

Lemma bind_eq {A B} (r : result A) (a : A) (k : A -> result B) :
  r = Ok a -> bind r k = k a.
Proof. intros ->. reflexivity. Qed.

Ltac entry_of p := eval vm_compute in (field_entry TokenStreamDataLayout 0 p).
Ltac step_field :=
  lazymatch goal with
  | |- bind (get_blob (struct_fill TokenStreamDataLayout ?buf 0 ∅) ?p) _ = _ =>
      let e := entry_of p in
      lazymatch e with
      | Some (?o, blob ?n ?q) =>
          rewrite (bind_eq _ _ _ (get_blob_fill buf p o n q ltac:(vm_compute; reflexivity)))
      end
  | |- bind (get_u8 (struct_fill TokenStreamDataLayout ?buf 0 ∅) ?p) _ = _ =>
      let e := entry_of p in
      lazymatch e with
      | Some (?o, u8 ?q) =>
          rewrite (bind_eq _ _ _ (get_u8_fill buf p o q ltac:(vm_compute; reflexivity)))
      end
  | |- bind (bind (get_blob (struct_fill TokenStreamDataLayout ?buf 0 ∅) ?p) _) _ = _ =>
      let e := entry_of p in
      lazymatch e with
      | Some (?o, blob ?n ?q) =>
          rewrite (bind_eq _ _ _ (get_blob_fill buf p o n q ltac:(vm_compute; reflexivity)));
          cbv beta;
          rewrite (bind_eq _ _ _ (PublicKey_new_ok (slice buf o (o + n))
                     ltac:(etransitivity; [apply slice_length | lia])))
      end
  end; cbv beta.

Lemma decodeStream_in_range dec buf :
  in_range TokenStreamDataLayout buf 0 = true ->
  exists r, decodeStream dec buf = Ok r /\ reads_layout dec buf r.
Proof.
  intros Hin. eexists. split.
  - unfold decodeStream.
    rewrite struct_decode_in_range, Hin.
    rewrite (bind_eq _ _ _ eq_refl). cbv beta.
    do 37 step_field.
    reflexivity.
  - unfold reads_layout, integer_fields, key_fields, flag_fields, field_bytes.
    repeat match goal with
    | |- context [field_entry TokenStreamDataLayout 0 ?p] =>
        let e := entry_of p in
        replace (field_entry TokenStreamDataLayout 0 p) with e by (vm_compute; reflexivity)
    end.
    split; [|split; [|split]]; [ | | | reflexivity];
      repeat (apply Forall_cons_2; [reflexivity|]); apply Forall_nil_2.
Qed.

Lemma in_range_layout buf :
  in_range TokenStreamDataLayout buf 0 = bool_decide (463 <= length buf).
Proof.
  transitivity (bool_decide (458 <= length buf) && (bool_decide (459 <= length buf) &&
    (bool_decide (460 <= length buf) && (bool_decide (461 <= length buf) &&
    (bool_decide (462 <= length buf) && (bool_decide (463 <= length buf) && true)))))).
  { reflexivity. }
  destruct (bool_decide_reflect (463 <= length buf)) as [Hle|Hgt].
  - rewrite !bool_decide_eq_true_2 by lia. reflexivity.
  - cbn [andb]. rewrite !andb_false_r. reflexivity.
Qed.

Lemma decodeStream_short dec buf :
  length buf < 463 -> decodeStream dec buf = Throw RangeError.
Proof.
  intros Hlen. unfold decodeStream.
  rewrite struct_decode_in_range, in_range_layout.
  rewrite bool_decide_eq_false_2 by lia. reflexivity.
Qed.

Lemma decodeStream_long dec buf :
  463 <= length buf ->
  exists r, decodeStream dec buf = Ok r /\ reads_layout dec buf r.
Proof.
  intros Hlen. apply decodeStream_in_range.
  rewrite in_range_layout. apply bool_decide_eq_true_2. exact Hlen.
Qed.

Lemma reads_layout_key dec buf r p get :
  reads_layout dec buf r -> (p, get) ∈ key_fields ->
  _bn (get r) = be_decode (field_bytes buf p).
Proof.
  intros (_ & Hk & _) Hin. rewrite Forall_forall in Hk. exact (Hk _ Hin).
Qed.

Lemma reads_layout_integer dec buf r p get :
  reads_layout dec buf r -> (p, get) ∈ integer_fields ->
  get r = BN_le (field_bytes buf p).
Proof.
  intros (Hi & _) Hin. rewrite Forall_forall in Hi. exact (Hi _ Hin).
Qed.

Lemma toBuffer_slice key buf o :
  o + 32 <= length buf ->
  _bn key = be_decode (slice buf o (o + 32)) ->
  toBuffer key = take 32 (drop o buf).
Proof.
  intros Hlen Hbn. unfold toBuffer. rewrite Hbn.
  assert (length (slice buf o (o + 32)) = 32) as Hl.
  { rewrite slice_length_in by lia. lia. }
  rewrite <- Hl at 1. rewrite be_encode_decode.
  unfold slice. f_equal. lia.
Qed.

Lemma BN_le_bound b n :
  length b <= n -> (0 <= BN_le b < 256 ^ Z.of_nat n)%Z.
Proof.
  intros Hlen. unfold BN_le. pose proof (le_decode_bound b) as Hb.
  split; [lia|].
  assert (256 ^ N.of_nat (length b) <= 256 ^ N.of_nat n)%N as Hmono
    by (apply N.pow_le_mono_r; lia).
  assert (Z.of_N (256 ^ N.of_nat n) = 256 ^ Z.of_nat n)%Z as <-.
  { rewrite N2Z.inj_pow. f_equal. lia. }
  lia.
Qed.

Lemma field_bytes_length buf p :
  length (field_bytes buf p) <=
  match field_entry TokenStreamDataLayout 0 p with
  | Some (_, fd) => getSpan fd
  | None => 0
  end.
Proof.
  unfold field_bytes. destruct (field_entry TokenStreamDataLayout 0 p) as [[o fd]|].
  - etransitivity; [apply slice_length|]. lia.
  - reflexivity.
Qed.

Ltac split_toNumber :=
  match goal with
  | |- context [toNumber ?v] =>
      let Hlt := fresh "Hlt" in
      let Hge := fresh "Hge" in
      destruct (Z.lt_ge_cases v (2 ^ 53)) as [Hlt|Hge];
      [ rewrite (toNumber_safe v) by lia; cbn [bind]
      | rewrite (toNumber_unsafe v) by lia; cbn [bind];
        split; [intros _; eexists; reflexivity | intros _; unfold unsafe_field; tauto] ]
  end.

Lemma formatDecodedStream_throws (b58 : PublicKey -> string) r :
  (0 <= DecodedStream.magic r)%Z ->
  (0 <= DecodedStream.version r < 2 ^ 53)%Z ->
  (0 <= DecodedStream.createdAt r)%Z ->
  (0 <= DecodedStream.canceledAt r)%Z ->
  (0 <= DecodedStream.end_ r)%Z ->
  (0 <= DecodedStream.lastWithdrawnAt r)%Z ->
  (0 <= DecodedStream.streamdaoFeePercent r < 2 ^ 53)%Z ->
  (0 <= DecodedStream.partnerFeePercent r < 2 ^ 53)%Z ->
  (0 <= DecodedStream.start r)%Z ->
  (0 <= DecodedStream.period r)%Z ->
  (0 <= DecodedStream.cliff r)%Z ->
  (0 <= DecodedStream.withdrawalFrequency r)%Z ->
  unsafe_field r <-> throws (formatDecodedStream b58 r).
Proof.
  intros. unfold formatDecodedStream.
  split_toNumber. rewrite (toNumber_safe (DecodedStream.version r)) by lia. cbn [bind].
  do 4 split_toNumber.
  rewrite (toNumber_safe (DecodedStream.streamdaoFeePercent r)) by lia. cbn [bind].
  rewrite (toNumber_safe (DecodedStream.partnerFeePercent r)) by lia. cbn [bind].
  do 4 split_toNumber.
  split.
  - unfold unsafe_field. lia.
  - intros [e He]. discriminate He.
Qed.

Lemma decoded_integer_bound dec buf r p get o fd :
  reads_layout dec buf r -> (p, get) ∈ integer_fields ->
  field_entry TokenStreamDataLayout 0 p = Some (o, fd) ->
  (0 <= get r < 256 ^ Z.of_nat (getSpan fd))%Z.
Proof.
  intros Hread Hin He. rewrite (reads_layout_integer dec buf r p get Hread Hin).
  apply BN_le_bound. pose proof (field_bytes_length buf p) as Hl.
  rewrite He in Hl. exact Hl.
Qed.

Ltac field_bound Hread p get :=
  let e := entry_of p in
  lazymatch e with
  | Some (?o, ?fd) =>
      let H := fresh "Hb" in
      pose proof (decoded_integer_bound _ _ _ p get o fd Hread
                    ltac:(unfold integer_fields; repeat constructor)
                    ltac:(vm_compute; reflexivity)) as H;
      cbn [getSpan] in H
  end.

Lemma decoded_format_throws dec b58 buf r :
  decodeStream dec buf = Ok r ->
  unsafe_field r <-> throws (formatDecodedStream b58 r).
Proof.
  intros Hr.
  destruct (le_lt_dec 463 (length buf)) as [Hlen|Hlen].
  2: { rewrite decodeStream_short in Hr by exact Hlen. discriminate Hr. }
  destruct (decodeStream_long dec buf Hlen) as (r' & Hr' & Hread).
  rewrite Hr in Hr'. injection Hr' as <-.
  field_bound Hread "magic" DecodedStream.magic.
  field_bound Hread "version" DecodedStream.version.
  field_bound Hread "created_at" DecodedStream.createdAt.
  field_bound Hread "canceled_at" DecodedStream.canceledAt.
  field_bound Hread "end_time" DecodedStream.end_.
  field_bound Hread "last_withdrawn_at" DecodedStream.lastWithdrawnAt.
  field_bound Hread "streamdao_fee_percent" DecodedStream.streamdaoFeePercent.
  field_bound Hread "partner_fee_percent" DecodedStream.partnerFeePercent.
  field_bound Hread "start_time" DecodedStream.start.
  field_bound Hread "period" DecodedStream.period.
  field_bound Hread "cliff" DecodedStream.cliff.
  field_bound Hread "withdraw_frequency" DecodedStream.withdrawalFrequency.
  change (256 ^ Z.of_nat 1)%Z with 256%Z in *.
  change (256 ^ Z.of_nat 4)%Z with 4294967296%Z in *.
  apply formatDecodedStream_throws; change (2 ^ 53)%Z with 9007199254740992%Z; lia.
Qed.

Lemma field_entry_offsets fields : forall offset p,
  fst <$> field_entry fields offset p = assoc_offset (layout_offsets fields offset) p.
Proof.
  induction fields as [|fd rest IH]; intros offset p; [reflexivity|].
  cbn [field_entry layout_offsets assoc_offset].
  destruct (decide (property fd = p)); [reflexivity|apply IH].
Qed.

(** ** The name encoder *)

Lemma bn_bytes_app a b : bn_bytes (a ++ b) = bn_bytes a ++ bn_bytes b.
Proof. apply map_app. Qed.

Lemma bn_bytes_length a : length (bn_bytes a) = length a.
Proof. apply length_map. Qed.

Lemma every_char_spec characters : forall acc,
  length acc <= 64 ->
  exists k,
    every_char characters acc
      = acc ++ bn_bytes (flat_map TextEncoder_encode (take k characters)) /\
    length (every_char characters acc) <= 64 /\
    (k = length characters \/
     exists char, characters !! k = Some char /\
       64 < length (every_char characters acc) + length (TextEncoder_encode char)).
Proof.
  induction characters as [|char rest IH]; intros acc Hacc.
  - exists 0. cbn [every_char take flat_map bn_bytes map length].
    rewrite app_nil_r. split; [reflexivity|]. split; [exact Hacc|]. left. reflexivity.
  - cbn [every_char].
    destruct (decide (64 < length acc)) as [Hover|_]; [lia|].
    destruct (decide (64 < length acc + length (TextEncoder_encode char))) as [Hstop|Hfit].
    + exists 0. cbn [take flat_map bn_bytes map]. rewrite app_nil_r.
      split; [reflexivity|]. split; [exact Hacc|].
      right. exists char. split; [reflexivity|exact Hstop].
    + fold (bn_bytes (TextEncoder_encode char)).
      destruct (IH (acc ++ bn_bytes (TextEncoder_encode char))) as (k & Heq & Hlen & Hstop).
      { rewrite length_app, bn_bytes_length. lia. }
      exists (S k). split; [|split].
      * rewrite Heq. cbn [take flat_map]. rewrite bn_bytes_app, app_assoc. reflexivity.
      * exact Hlen.
      * destruct Hstop as [->|Hstop]; [left; reflexivity|right; exact Hstop].
Qed.

Lemma Array_fill_nat {A} (n : nat) (v : A) :
  n <= 64 -> Array_fill (64 - Z.of_nat n) v = Ok (replicate (64 - n) v).
Proof.
  intros Hn. unfold Array_fill.
  destruct (Z.ltb_spec (64 - Z.of_nat n) 0); [lia|].
  do 2 f_equal. lia.
Qed.

Lemma format_spec text :
  exists k,
    let characters := codePoints text in
    let kept := bn_bytes (flat_map TextEncoder_encode (take k characters)) in
    formatStringToBytesArray text = Ok (kept ++ replicate (64 - length kept) 0%Z) /\
    length kept <= 64 /\
    (k = length characters \/
     exists char, characters !! k = Some char /\
       64 < length kept + length (TextEncoder_encode char)).
Proof.
  destruct (every_char_spec (codePoints text) []) as (k & Heq & Hlen & Hstop);
    [cbn; lia|].
  exists k. cbn zeta. cbn [app] in Heq. rewrite <- Heq.
  split; [|split; [exact Hlen|exact Hstop]].
  unfold formatStringToBytesArray. rewrite Array_fill_nat by exact Hlen. reflexivity.
Qed.

Lemma ascii_not_surrogate u :
  (u < 128)%N -> is_high_surrogate u = false /\ is_low_surrogate u = false.
Proof.
  intros Hu. unfold is_high_surrogate, is_low_surrogate.
  destruct (N.leb_spec 0xD800 u); [lia|].
  destruct (N.leb_spec 0xDC00 u); [lia|]. split; reflexivity.
Qed.

Lemma codePoints_ascii text :
  Forall (fun u => (u < 128)%N) text -> codePoints text = map (fun u => [u]) text.
Proof.
  induction 1 as [|u tl Hu Htl IH]; [reflexivity|].
  cbn [codePoints map]. destruct (ascii_not_surrogate u Hu) as [-> _].
  cbn [andb]. destruct tl as [|v rest]; [reflexivity|]. rewrite IH. reflexivity.
Qed.

Lemma to_N_byte_of_N u : (u < 256)%N -> Byte.to_N (byte_of_N u) = u.
Proof.
  intros Hu. unfold byte_of_N. rewrite N.mod_small by exact Hu.
  destruct (Byte.of_N u) as [x|] eqn:Hx.
  - apply Byte.to_of_N. exact Hx.
  - apply Byte.of_N_None_iff in Hx. lia.
Qed.

Lemma encode_ascii u : (u < 128)%N -> TextEncoder_encode [u] = [byte_of_N u].
Proof.
  intros Hu. unfold TextEncoder_encode. cbn [scalarValues].
  destruct (ascii_not_surrogate u Hu) as [-> ->]. cbn [orb flat_map].
  unfold utf8_bytes. destruct (N.ltb_spec u 0x80); [reflexivity|lia].
Qed.

Lemma every_char_ascii text : forall acc,
  Forall (fun u => (u < 128)%N) text -> length acc <= 64 ->
  every_char (map (fun u => [u]) text) acc
    = acc ++ take (64 - length acc) (map Z.of_N text).
Proof.
  induction text as [|u rest IH]; intros acc Hascii Hacc.
  - cbn [map every_char]. rewrite take_nil, app_nil_r. reflexivity.
  - apply Forall_cons in Hascii as [Hu Hrest]. cbn [map every_char].
    destruct (decide (64 < length acc)) as [Hover|_]; [lia|].
    rewrite (encode_ascii u Hu). cbn [length map].
    destruct (decide (64 < length acc + 1)) as [Hstop|Hfit].
    + replace (64 - length acc) with 0 by lia. rewrite app_nil_r. reflexivity.
    + rewrite IH by (try rewrite length_app; cbn [length]; first [exact Hrest|lia]).
      rewrite to_N_byte_of_N by lia. rewrite length_app. cbn [length].
      replace (64 - length acc) with (S (64 - (length acc + 1))) by lia.
      cbn [take]. rewrite <- app_assoc. reflexivity.
Qed.

Lemma format_ascii text :
  Forall (fun u => (u < 128)%N) text -> 64 <= length text ->
  formatStringToBytesArray text = Ok (map Z.of_N (take 64 text)).
Proof.
  intros Hascii Hlen. unfold formatStringToBytesArray. cbv zeta.
  rewrite (codePoints_ascii text Hascii).
  rewrite (every_char_ascii text [] Hascii) by (cbn; lia).
  change ([] ++ ?l) with l. change (64 - length (@nil BN)) with 64.
  match goal with
  | |- context [Array_fill (64 - Z.of_nat ?n)] =>
      assert (n = 64) as Hl by (rewrite length_take, length_map; lia); rewrite Hl
  end.
  rewrite Array_fill_nat by lia. cbn [bind Nat.sub replicate].
  rewrite app_nil_r. rewrite firstn_map. reflexivity.
Qed.

Lemma encode_cons_pair u v rest :
  is_high_surrogate u && is_low_surrogate v = true ->
  TextEncoder_encode (u :: v :: rest)
  = TextEncoder_encode [u; v] ++ TextEncoder_encode rest.
Proof.
  intros Hpair. unfold TextEncoder_encode. cbn [scalarValues]. rewrite Hpair.
  cbn [flat_map]. rewrite app_nil_r. reflexivity.
Qed.

Lemma encode_cons_single u v rest :
  is_high_surrogate u && is_low_surrogate v = false ->
  TextEncoder_encode (u :: v :: rest)
  = TextEncoder_encode [u] ++ TextEncoder_encode (v :: rest).
Proof.
  intros Hpair. unfold TextEncoder_encode.
  change (scalarValues (u :: v :: rest))
    with (if is_high_surrogate u && is_low_surrogate v
          then (0x10000 + (u - 0xD800) * 0x400 + (v - 0xDC00))%N :: scalarValues rest
          else (if is_high_surrogate u || is_low_surrogate u then 0xFFFD%N else u)
               :: scalarValues (v :: rest)).
  rewrite Hpair. cbn [scalarValues flat_map]. rewrite app_nil_r. reflexivity.
Qed.

Lemma encode_by_code_point_upto n : forall text,
  length text <= n ->
  flat_map TextEncoder_encode (codePoints text) = TextEncoder_encode text.
Proof.
  induction n as [|n IH]; intros text Hlen.
  - destruct text; [reflexivity|cbn in Hlen; lia].
  - destruct text as [|u [|v rest]]; [reflexivity| |].
    + cbn [codePoints flat_map]. apply app_nil_r.
    + change (codePoints (u :: v :: rest))
        with (if is_high_surrogate u && is_low_surrogate v
              then [u; v] :: codePoints rest
              else [u] :: codePoints (v :: rest)).
      cbn [length] in Hlen.
      destruct (is_high_surrogate u && is_low_surrogate v) eqn:Hpair.
      * cbn [flat_map]. rewrite IH by lia. symmetry. apply encode_cons_pair. exact Hpair.
      * cbn [flat_map]. rewrite IH by (cbn [length]; lia).
        symmetry. apply encode_cons_single. exact Hpair.
Qed.

(** Encoding the code points one by one gives the encoding of the text. *)
Lemma encode_by_code_point text :
  flat_map TextEncoder_encode (codePoints text) = TextEncoder_encode text.
Proof. apply (encode_by_code_point_upto (length text)). reflexivity. Qed.

Ltac divmod u c :=
  let H1 := fresh "Hdiv" in
  let H2 := fresh "Hmod" in
  pose proof (N.div_mod u c ltac:(discriminate)) as H1;
  pose proof (N.mod_lt u c ltac:(discriminate)) as H2;
  let d := fresh "d" in
  let r := fresh "r" in
  set (d := (u / c)%N) in *; set (r := (u mod c)%N) in *; clearbody d r.

Lemma is_high_surrogate_spec u : is_high_surrogate u = true <-> leading u.
Proof.
  unfold is_high_surrogate, leading.
  rewrite andb_true_iff, !N.leb_le. reflexivity.
Qed.

Lemma is_low_surrogate_spec u : is_low_surrogate u = true <-> trailing u.
Proof.
  unfold is_low_surrogate, trailing.
  rewrite andb_true_iff, !N.leb_le. reflexivity.
Qed.

Lemma surrogate_pair_spec u v :
  is_high_surrogate u && is_low_surrogate v = true <-> leading u /\ trailing v.
Proof.
  rewrite andb_true_iff, is_high_surrogate_spec, is_low_surrogate_spec. reflexivity.
Qed.

Lemma codePoints_cons2 u v rest :
  codePoints (u :: v :: rest)
  = if is_high_surrogate u && is_low_surrogate v
    then [u; v] :: codePoints rest
    else [u] :: codePoints (v :: rest).
Proof. reflexivity. Qed.

Lemma codePoints_head u rest : exists tail more, codePoints (u :: rest) = (u :: tail) :: more.
Proof.
  destruct rest as [|v rest]; [exists [], []; reflexivity|].
  rewrite codePoints_cons2.
  destruct (is_high_surrogate u && is_low_surrogate v); eauto.
Qed.

Lemma codePoints_by_code_point_upto n : forall text,
  length text <= n -> by_code_point text (codePoints text).
Proof.
  induction n as [|n IH]; intros text Hlen.
  - destruct text; [|cbn in Hlen; lia].
    split; [reflexivity|]. split; [apply Forall_nil_2|]. intros i h l rest H. discriminate H.
  - destruct text as [|u [|v rest]].
    + split; [reflexivity|]. split; [apply Forall_nil_2|]. intros i h l rest H. discriminate H.
    + split; [reflexivity|]. split.
      * apply Forall_cons_2; [left; eauto|apply Forall_nil_2].
      * intros [|i] h l rest H1 H2; discriminate H2.
    + rewrite codePoints_cons2. cbn [length] in Hlen.
      destruct (is_high_surrogate u && is_low_surrogate v) eqn:Hpair.
      * destruct (IH rest ltac:(lia)) as (Hcat & Hshape & Hsplit).
        apply surrogate_pair_spec in Hpair.
        split; [cbn [concat app]; rewrite Hcat; reflexivity|]. split.
        -- apply Forall_cons_2; [right; exists u, v; tauto|exact Hshape].
        -- intros [|i] h l rest' H1 H2; [discriminate H1|].
           exact (Hsplit i h l rest' H1 H2).
      * destruct (IH (v :: rest) ltac:(cbn [length]; lia)) as (Hcat & Hshape & Hsplit).
        split; [cbn [concat app]; rewrite Hcat; reflexivity|]. split.
        -- apply Forall_cons_2; [left; eauto|exact Hshape].
        -- intros [|i] h l rest' H1 H2.
           ++ injection H1 as <-.
              destruct (codePoints_head v rest) as (tail & more & Hhead).
              cbn [lookup list_lookup] in H2. rewrite Hhead in H2.
              injection H2 as <- _.
              rewrite <- surrogate_pair_spec, Hpair. discriminate.
           ++ exact (Hsplit i h l rest' H1 H2).
Qed.

Lemma codePoints_by_code_point text : by_code_point text (codePoints text).
Proof. apply (codePoints_by_code_point_upto (length text)). reflexivity. Qed.

Lemma to_N_continuation r : (r < 0x40)%N -> continuation (byte_of_N (0x80 + r)) = Some r.
Proof.
  intros Hr. unfold continuation. rewrite to_N_byte_of_N by lia.
  destruct (N.leb_spec 0x80 (0x80 + r)); [|lia].
  destruct (N.leb_spec (0x80 + r) 0xBF); [|lia].
  cbn [andb]. f_equal. lia.
Qed.

Lemma div_0x1000 c : (c / 0x1000 = c / 0x40 / 0x40)%N.
Proof. rewrite N.Div0.div_div. reflexivity. Qed.

Lemma div_0x40000 c : (c / 0x40000 = c / 0x40 / 0x40 / 0x40)%N.
Proof. rewrite !N.Div0.div_div. reflexivity. Qed.

(** Reading back the bytes of a scalar value gives the value. *)
Lemma utf8_scalar_bytes c :
  (c < 0xD800 \/ 0xE000 <= c <= 0x10FFFF)%N -> utf8_scalar (utf8_bytes c) = Some c.
Proof.
  intros Hc. unfold utf8_bytes.
  destruct (N.ltb_spec c 0x80) as [H1|H1].
  { cbn [utf8_scalar]. rewrite to_N_byte_of_N by lia.
    destruct (N.ltb_spec c 0x80); [reflexivity|lia]. }
  destruct (N.ltb_spec c 0x800) as [H2|H2].
  { divmod c 0x40%N. cbn [utf8_scalar].
    rewrite to_N_continuation by lia. rewrite to_N_byte_of_N by lia.
    replace ((0xC0 + d - 0xC0) * 0x40 + r)%N with c by lia.
    destruct (N.leb_spec 0xC0 (0xC0 + d)); [|lia].
    destruct (N.leb_spec (0xC0 + d) 0xDF); [|lia].
    destruct (N.leb_spec 0x80 c); [reflexivity|lia]. }
  destruct (N.ltb_spec c 0x10000) as [H3|H3].
  { rewrite div_0x1000. divmod c 0x40%N. divmod d 0x40%N. cbn [utf8_scalar].
    rewrite !to_N_continuation by lia. rewrite to_N_byte_of_N by lia.
    replace ((0xE0 + d0 - 0xE0) * 0x1000 + r0 * 0x40 + r)%N with c by lia.
    destruct (N.leb_spec 0xE0 (0xE0 + d0)); [|lia].
    destruct (N.leb_spec (0xE0 + d0) 0xEF); [|lia].
    destruct (N.leb_spec 0x800 c); [|lia].
    destruct (N.leb_spec 0xD800 c); [|reflexivity].
    destruct (N.leb_spec c 0xDFFF); [lia|reflexivity]. }
  rewrite div_0x40000, div_0x1000. divmod c 0x40%N. divmod d 0x40%N. divmod d0 0x40%N.
  cbn [utf8_scalar].
  rewrite !to_N_continuation by lia. rewrite to_N_byte_of_N by lia.
  replace ((0xF0 + d1 - 0xF0) * 0x40000 + r1 * 0x1000 + r0 * 0x40 + r)%N with c by lia.
  destruct (N.leb_spec 0xF0 (0xF0 + d1)); [|lia].
  destruct (N.leb_spec (0xF0 + d1) 0xF7); [|lia].
  destruct (N.leb_spec 0x10000 c); [|lia].
  destruct (N.leb_spec c 0x10FFFF); [reflexivity|lia].
Qed.

Lemma encode_unit u :
  TextEncoder_encode [u]
  = utf8_bytes (if is_high_surrogate u || is_low_surrogate u then 0xFFFD%N else u).
Proof. unfold TextEncoder_encode. cbn [scalarValues flat_map]. apply app_nil_r. Qed.

Lemma encode_pair h l :
  leading h -> trailing l ->
  TextEncoder_encode [h; l] = utf8_bytes (0x10000 + (h - 0xD800) * 0x400 + (l - 0xDC00))%N.
Proof.
  intros Hh Hl. unfold TextEncoder_encode. cbn [scalarValues].
  rewrite (proj2 (surrogate_pair_spec h l) (conj Hh Hl)).
  cbn [flat_map]. apply app_nil_r.
Qed.

(** Each character of the iteration is encoded as the UTF-8 form of its
    code point; a surrogate on its own as that of U+FFFD. *)
Lemma encode_character :
  (forall u, (u < 0xD800 \/ 0xE000 <= u < 0x10000)%N ->
     utf8_scalar (TextEncoder_encode [u]) = Some u) /\
  (forall h l, leading h -> trailing l ->
     utf8_scalar (TextEncoder_encode [h; l])
     = Some (0x10000 + (h - 0xD800) * 0x400 + (l - 0xDC00))%N) /\
  (forall u, leading u \/ trailing u ->
     TextEncoder_encode [u] = [xef; xbf; xbd] /\
     utf8_scalar (TextEncoder_encode [u]) = Some 0xFFFD%N).
Proof.
  split; [|split].
  - intros u Hu. rewrite encode_unit.
    assert (is_high_surrogate u || is_low_surrogate u = false) as ->.
    { apply orb_false_iff. split; apply not_true_iff_false.
      - rewrite is_high_surrogate_spec. unfold leading. lia.
      - rewrite is_low_surrogate_spec. unfold trailing. lia. }
    apply utf8_scalar_bytes. lia.
  - intros h l Hh Hl. rewrite (encode_pair h l Hh Hl).
    apply utf8_scalar_bytes. unfold leading, trailing in *. lia.
  - intros u Hu. rewrite encode_unit.
    assert (is_high_surrogate u || is_low_surrogate u = true) as ->.
    { apply orb_true_iff. rewrite is_high_surrogate_spec, is_low_surrogate_spec. exact Hu. }
    split; vm_compute; reflexivity.
Qed.

Lemma to_N_inj x y : Byte.to_N x = Byte.to_N y -> x = y.
Proof.
  intros H. pose proof (Byte.of_to_N x) as Hx. rewrite H, Byte.of_to_N in Hx. congruence.
Qed.

Lemma continuation_spec x r :
  continuation x = Some r -> Byte.to_N x = (0x80 + r)%N /\ (r < 0x40)%N.
Proof.
  unfold continuation.
  destruct (N.leb_spec 0x80 (Byte.to_N x)); [|discriminate].
  destruct (N.leb_spec (Byte.to_N x) 0xBF); [|discriminate].
  cbn [andb]. intros Hr. injection Hr as <-. lia.
Qed.

Ltac read_utf8 H :=
  cbn [utf8_scalar] in H;
  repeat match type of H with
  | context [continuation ?x] =>
      let E := fresh "E" in
      destruct (continuation x) eqn:E; [apply continuation_spec in E as [? ?]|discriminate H]
  end;
  match type of H with
  | (if ?c then _ else _) = Some _ =>
      let E := fresh "E" in
      destruct c eqn:E; [|discriminate H];
      repeat (apply andb_true_iff in E as [E ?]);
      repeat match goal with
      | H' : (_ <=? _)%N = true |- _ => apply N.leb_le in H'
      | H' : (_ <? _)%N = true |- _ => apply N.ltb_lt in H'
      end;
      injection H as H
  end.

(** Well-formed UTF-8 is unique: the scalar value determines the bytes. *)
Lemma utf8_scalar_inj bytes1 bytes2 c :
  utf8_scalar bytes1 = Some c -> utf8_scalar bytes2 = Some c -> bytes1 = bytes2.
Proof.
  intros H1 H2.
  destruct bytes1 as [|a1 [|a2 [|a3 [|a4 [|]]]]]; try discriminate H1;
    destruct bytes2 as [|b1 [|b2 [|b3 [|b4 [|]]]]]; try discriminate H2;
    read_utf8 H1; read_utf8 H2;
    try (exfalso; lia);
    repeat (f_equal; try (apply to_N_inj; lia)).
Qed.

Lemma by_code_point_tail text char characters :
  by_code_point text (char :: characters) ->
  by_code_point (concat characters) characters.
Proof.
  intros (_ & Hshape & Hsplit). split; [reflexivity|]. split.
  - apply Forall_cons in Hshape as [_ Hshape]. exact Hshape.
  - intros i h l rest H1 H2. exact (Hsplit (S i) h l rest H1 H2).
Qed.

Lemma concat_head (u : N) tail (characters : list jsstring) :
  Forall (fun char => (exists u, char = [u]) \/
                      (exists h l, char = [h; l] /\ leading h /\ trailing l)) characters ->
  concat characters = u :: tail ->
  exists rest more, characters = (u :: rest) :: more.
Proof.
  intros Hshape Hcat. destruct characters as [|char more]; [discriminate Hcat|].
  apply Forall_cons in Hshape as [Hchar _].
  destruct Hchar as [(v & ->)|(h & l & -> & _)]; injection Hcat as -> _; eauto.
Qed.

(** The three properties leave one way to cut a text. *)
Lemma by_code_point_unique characters1 : forall text characters2,
  by_code_point text characters1 -> by_code_point text characters2 ->
  characters1 = characters2.
Proof.
  induction characters1 as [|char1 rest1 IH]; intros text characters2 H1 H2.
  - destruct H1 as (<- & _). destruct H2 as (Hcat & Hshape & _).
    destruct characters2 as [|char2 rest2]; [reflexivity|].
    apply Forall_cons in Hshape as [Hchar _]. cbn [concat] in Hcat.
    destruct Hchar as [(v & ->)|(h & l & -> & _)]; discriminate Hcat.
  - pose proof (by_code_point_tail _ _ _ H1) as Htail1.
    destruct H1 as (Hcat1 & Hshape1 & Hsplit1). destruct H2 as (Hcat2 & Hshape2 & Hsplit2).
    pose proof Hshape1 as Hall1. apply Forall_cons in Hshape1 as [Hchar1 Hrest1].
    destruct characters2 as [|char2 rest2].
    { cbn [concat] in Hcat2. rewrite <- Hcat2 in Hcat1. cbn [concat] in Hcat1.
      destruct Hchar1 as [(v & ->)|(h & l & -> & _)]; discriminate Hcat1. }
    pose proof (by_code_point_tail _ _ _ (conj Hcat2 (conj Hshape2 Hsplit2))) as Htail2.
    pose proof Hshape2 as Hall2. apply Forall_cons in Hshape2 as [Hchar2 Hrest2].
    cbn [concat] in Hcat1, Hcat2. rewrite <- Hcat2 in Hcat1.
    assert (char1 = char2) as <-.
    { destruct Hchar1 as [(u & ->)|(h & l & -> & Hh & Hl)];
        destruct Hchar2 as [(u' & ->)|(h' & l' & -> & Hh' & Hl')].
      - injection Hcat1 as -> _. reflexivity.
      - exfalso. injection Hcat1 as Hu Hc. subst u.
        destruct (concat_head _ _ _ Hrest1 Hc) as (rest & more & ->).
        exact (Hsplit1 0 h' l' rest eq_refl eq_refl (conj Hh' Hl')).
      - exfalso. injection Hcat1 as Hu Hc. subst u'. symmetry in Hc.
        destruct (concat_head _ _ _ Hrest2 Hc) as (rest & more & ->).
        exact (Hsplit2 0 h l rest eq_refl eq_refl (conj Hh Hl)).
      - injection Hcat1 as -> -> _. reflexivity. }
    f_equal. apply app_inv_head in Hcat1.
    apply (IH (concat rest1)); [exact Htail1|].
    rewrite Hcat1. exact Htail2.
Qed.

(** ** The address search *)

Section AddressDeriverProofs.

Variable seed_hash : list (list byte) -> list byte -> list byte.
Variable on_curve : list byte -> bool.
Variable seeds : list (list byte).
Variable programId : list byte.

Lemma search_from (n : nat) : forall b a,
  N.to_nat b + n = 256 ->
  exists outcome attempts,
    (forall fuel, n + 1 <= fuel ->
       search_run seed_hash on_curve seeds programId fuel (Trying b a)
         = Some (outcome, attempts)) /\
    search_outcome seed_hash on_curve seeds programId b a outcome attempts.
Proof.
  induction n as [|n IH]; intros b a Hb.
  - exists (Throw DerivationError), a. split.
    + intros fuel Hfuel. destruct fuel as [|fuel]; [lia|].
      cbn [search_run search_step].
      destruct (N.ltb_spec b 256) as [Hlt|_]; [lia|].
      destruct fuel; reflexivity.
    + cbn [search_outcome]. split; [reflexivity|]. split; [lia|].
      intros b' Hb'. lia.
  - destruct (on_curve (candidate seed_hash seeds programId b)) eqn:Hcurve.
    + destruct (IH (b + 1)%N (S a)) as (outcome & attempts & Hrun & Hout); [lia|].
      exists outcome, attempts. split.
      * intros fuel Hfuel. destruct fuel as [|fuel]; [lia|].
        cbn [search_run search_step].
        destruct (N.ltb_spec b 256) as [_|Hge]; [|lia].
        rewrite Hcurve. apply Hrun. lia.
      * destruct outcome as [[address bump]|e]; cbn [search_outcome] in *.
        -- destruct Hout as (Hbump & Hatt & Haddr & Hoff & Hbefore).
           split; [lia|]. split; [lia|]. split; [exact Haddr|]. split; [exact Hoff|].
           intros b' Hb'. destruct (N.eq_dec b' b) as [->|Hne]; [exact Hcurve|].
           apply Hbefore. lia.
        -- destruct Hout as (He & Hatt & Hall).
           split; [exact He|]. split; [lia|].
           intros b' Hb'. destruct (N.eq_dec b' b) as [->|Hne]; [exact Hcurve|].
           apply Hall. lia.
    + exists (Ok (candidate seed_hash seeds programId b, b)), (S a). split.
      * intros fuel Hfuel. destruct fuel as [|fuel]; [lia|].
        cbn [search_run search_step].
        destruct (N.ltb_spec b 256) as [_|Hge]; [|lia].
        rewrite Hcurve. destruct fuel; reflexivity.
      * cbn [search_outcome]. split; [lia|]. split; [lia|].
        split; [reflexivity|]. split; [exact Hcurve|]. intros b' Hb'. lia.
Qed.

Lemma search_terminates :
  exists outcome attempts,
    (forall fuel, 257 <= fuel ->
       findProgramAddress seed_hash on_curve seeds programId fuel
         = Some (outcome, attempts)) /\
    attempts <= 256 /\
    search_outcome seed_hash on_curve seeds programId 0 0 outcome attempts.
Proof.
  destruct (search_from 256 0%N 0) as (outcome & attempts & Hrun & Hout); [reflexivity|].
  exists outcome, attempts. split; [|split].
  - intros fuel Hfuel. apply Hrun. lia.
  - destruct outcome as [[address bump]|e]; cbn [search_outcome] in Hout; lia.
  - exact Hout.
Qed.

End AddressDeriverProofs.

(** ** The claims *)

(** C1. In the decode layout the sender field is the 32-byte blob at offset
    49 and the recipient field the 32-byte blob at offset 113; the two
    filter-offset constants are exactly these offsets; and for every buffer
    of at least 535 bytes, decoding succeeds and the decoded sender and
    recipient keys are the 32 input bytes from offset 49 and from offset
    113. *)
Theorem sender_recipient_offsets (dec : list byte -> jsstring) :
  field_entry TokenStreamDataLayout 0 "sender"
    = Some (STREAM_STRUCT_OFFSET_SENDER, blob 32 "sender") /\
  field_entry TokenStreamDataLayout 0 "recipient"
    = Some (STREAM_STRUCT_OFFSET_RECIPIENT, blob 32 "recipient") /\
  STREAM_STRUCT_OFFSET_SENDER = 49 /\
  STREAM_STRUCT_OFFSET_RECIPIENT = 113 /\
  forall buf, 535 <= length buf ->
    exists r, decodeStream dec buf = Ok r /\
      toBuffer (DecodedStream.sender r)
        = take 32 (drop STREAM_STRUCT_OFFSET_SENDER buf) /\
      toBuffer (DecodedStream.recipient r)
        = take 32 (drop STREAM_STRUCT_OFFSET_RECIPIENT buf).
Proof.
  split; [vm_compute; reflexivity|]. split; [vm_compute; reflexivity|].
  split; [reflexivity|]. split; [reflexivity|].
  intros buf Hlen.
  destruct (decodeStream_long dec buf) as (r & Hr & Hread); [lia|].
  exists r. split; [exact Hr|].
  unfold STREAM_STRUCT_OFFSET_SENDER, STREAM_STRUCT_OFFSET_RECIPIENT.
  split.
  - apply toBuffer_slice; [lia|].
    apply (reads_layout_key dec buf r "sender" DecodedStream.sender Hread).
    unfold key_fields. repeat constructor.
  - apply toBuffer_slice; [lia|].
    apply (reads_layout_key dec buf r "recipient" DecodedStream.recipient Hread).
    unfold key_fields. repeat constructor.
Qed.

Lemma sender_recipient_offsets_witness :
  535 <= length all_zero /\
  exists r, decodeStream no_text all_zero = Ok r /\
    toBuffer (DecodedStream.sender r)
      = take 32 (drop STREAM_STRUCT_OFFSET_SENDER all_zero) /\
    toBuffer (DecodedStream.recipient r)
      = take 32 (drop STREAM_STRUCT_OFFSET_RECIPIENT all_zero).
Proof.
  split; [vm_compute; lia|].
  destruct (sender_recipient_offsets no_text) as (_ & _ & _ & _ & Hdecode).
  apply Hdecode. vm_compute. lia.
Defined.

(** C2, as the code has it. The spans of the layout are the widths of the
    specification's table and sum to 535; for every buffer of at least 535
    bytes, decoding succeeds and every field is read from the bytes at the
    offset obtained by summing the spans of the fields before it in the
    layout of the code (TokenStreamDataLayout), integers as unsigned
    little-endian values. The order is the layout's, not the order in which
    the specification's table lists the fields. *)
Theorem decode_reads_layout (dec : list byte -> jsstring) :
  layout_span TokenStreamDataLayout = 535 /\
  spans_of TokenStreamDataLayout ≡ₚ spec_field_table /\
  layout_offsets TokenStreamDataLayout 0 =
    [ ("magic", 0); ("version", 8); ("created_at", 9); ("withdrawn_amount", 17);
      ("canceled_at", 25); ("end_time", 33); ("last_withdrawn_at", 41);
      ("sender", 49); ("sender_tokens", 81); ("recipient", 113);
      ("recipient_tokens", 145); ("mint", 177); ("escrow_tokens", 209);
      ("streamdao_treasury", 241); ("streamdao_treasury_tokens", 273);
      ("streamdao_fee_total", 305); ("streamdao_fee_withdrawn", 313);
      ("streamdao_fee_percent", 321); ("partner", 325); ("partner_tokens", 357);
      ("partner_fee_total", 389); ("partner_fee_withdrawn", 397);
      ("partner_fee_percent", 405); ("start_time", 409);
      ("net_deposited_amount", 417); ("period", 425); ("amount_per_period", 433);
      ("cliff", 441); ("cliff_amount", 449); ("cancelable_by_sender", 457);
      ("cancelable_by_recipient", 458); ("automatic_withdrawal", 459);
      ("transferable_by_sender", 460); ("transferable_by_recipient", 461);
      ("can_topup", 462); ("stream_name", 463); ("withdraw_frequency", 527) ] /\
  (forall p, fst <$> field_entry TokenStreamDataLayout 0 p
             = offset_of TokenStreamDataLayout p) /\
  forall buf, 535 <= length buf ->
    exists r, decodeStream dec buf = Ok r /\ reads_layout dec buf r.
Proof.
  split; [reflexivity|]. split; [|split; [|split]].
  - apply (bool_decide_unpack _). vm_compute. exact I.
  - vm_compute. reflexivity.
  - intros p. apply field_entry_offsets.
  - intros buf Hlen. apply decodeStream_long. lia.
Qed.

Lemma decode_reads_layout_witness :
  535 <= length all_ones /\
  exists r, decodeStream no_text all_ones = Ok r /\ reads_layout no_text all_ones r.
Proof.
  split; [vm_compute; lia|].
  destruct (decode_reads_layout no_text) as (_ & _ & _ & _ & Hdecode).
  apply Hdecode. vm_compute. lia.
Defined.

(** C2 as stated fails: summing the widths in the order of the
    specification's table puts canceledAt at offset 17, while the code reads
    it at offset 25 (offset 17 holds withdrawn_amount). On 535 zero bytes
    with a 1 at offset 17, the decoded canceledAt is 0, the value of the
    bytes at 25, and not 1, the value of the bytes at 17. *)
Lemma table_order_misplaces_canceledAt :
  assoc_offset (table_offsets spec_field_table 0) "canceled_at" = Some 17 /\
  field_entry TokenStreamDataLayout 0 "canceled_at" = Some (25, blob 8 "canceled_at") /\
  length canceled_marker = 535 /\
  BN_le (slice canceled_marker 17 (17 + 8)) = 1%Z /\
  exists r, decodeStream no_text canceled_marker = Ok r /\
    DecodedStream.canceledAt r = 0%Z /\
    DecodedStream.canceledAt r = BN_le (slice canceled_marker 25 (25 + 8)) /\
    DecodedStream.withdrawnAmount r = 1%Z.
Proof.
  split; [vm_compute; reflexivity|]. split; [vm_compute; reflexivity|].
  split; [vm_compute; reflexivity|]. split; [vm_compute; reflexivity|].
  eexists. split; [vm_compute; reflexivity|].
  split; [|split]; vm_compute; reflexivity.
Qed.

(** C3. The search for the escrow address, seeded with the text "strm" and
    the 32 bytes of the fresh metadata key under the program's identifier,
    always finishes: with any fuel from 257 on the loop has returned, after
    at most 256 attempts, either an off-curve address with its bump below
    256 (every smaller bump being on the curve) or a DerivationError when
    all 256 bumps are on the curve. *)
Theorem escrow_address_search_terminates
    (seed_hash : list (list byte) -> list byte -> list byte)
    (on_curve : list byte -> bool) (metadata : PublicKey) (programId : list byte) :
  exists outcome attempts,
    (forall fuel, 257 <= fuel ->
       findProgramAddress seed_hash on_curve (escrow_seeds metadata) programId fuel
         = Some (outcome, attempts)) /\
    attempts <= 256 /\
    search_outcome seed_hash on_curve (escrow_seeds metadata) programId 0 0
      outcome attempts.
Proof. apply search_terminates. Qed.

Lemma escrow_address_search_witness :
  exists outcome attempts,
    findProgramAddress sample_hash sample_curve (escrow_seeds {| _bn := 0 |}) [] 257
      = Some (outcome, attempts) /\
    attempts <= 256.
Proof.
  destruct (escrow_address_search_terminates sample_hash sample_curve {| _bn := 0 |} [])
    as (outcome & attempts & Hrun & Hbound & _).
  exists outcome, attempts. split; [apply Hrun; lia | exact Hbound].
Defined.

(** C4, as the code has it. The name encoder is total: it returns for every
    string. The amount scaler is not, and all it ever throws is the
    assertion error of bn.js. For a decimals count up to 22 (where
    10 ** decimals is the exact power) getBN returns on a finite value
    exactly in these cases: when the code's test
    value > (2^53 - 1) / 10 ** decimals holds in double arithmetic, if the
    value is below 2^53 and the decimals count is at most 15; when the test
    does not hold (so for every negative value), if the exact product
    value * 10^decimals is below 2^53 - 1/2 in magnitude, which is when the
    double product is below 2^53. It returns for NaN and throws for either
    infinity. In particular it returns the exact product for every integer
    value from 0 below 2^53 and decimals count up to 15. getNumberFromBN
    returns for every value above -2^53 up to 2^53 - 1, whatever the
    decimals count; for a value above 2^53 - 1 and a decimals count up to
    22 it returns exactly when the decimals count is at most 15 and the
    quotient by 10^decimals is below 2^53; it throws for every value of
    -2^53 or less. *)
Theorem encoder_total_scaler_partial :
  (forall text, returns (formatStringToBytesArray text)) /\
  (forall x d e v, getBN x d = Throw e \/ getNumberFromBN v d = Throw e ->
     e = AssertionError) /\
  (forall q d, d <= 22 ->
     (returns (getBN (Finite q) d) <->
      if number_gt (Finite q) (threshold d)
      then (q < inject_Z (2 ^ 53))%Q /\ d <= 15
      else (Qabs (q * inject_Z (10 ^ Z.of_nat d)) < inject_Z (2 ^ 53) - (1 # 2))%Q)) /\
  (forall d, d <= 22 ->
     returns (getBN NaN d) /\
     throws (getBN (Infinity false) d) /\ throws (getBN (Infinity true) d)) /\
  (forall x d, (0 <= x < 2 ^ 53)%Z -> d <= 15 ->
     getBN (Finite (inject_Z x)) d = Ok (x * 10 ^ Z.of_nat d)%Z) /\
  (forall v d, (- 2 ^ 53 < v <= MAX_SAFE)%Z -> returns (getNumberFromBN v d)) /\
  (forall v d, (MAX_SAFE < v)%Z -> d <= 22 ->
     (returns (getNumberFromBN v d) <->
      d <= 15 /\ (v / 10 ^ Z.of_nat d < 2 ^ 53)%Z)) /\
  (forall v d, (v <= - 2 ^ 53)%Z -> throws (getNumberFromBN v d)).
Proof.
  split; [|split; [|split; [|split; [|split; [|split; [|split]]]]]].
  - intros text. destruct (format_spec text) as (k & Hk & _).
    eexists. exact Hk.
  - intros x d e v [H|H]; [exact (getBN_error _ _ _ H)|exact (getNumberFromBN_error _ _ _ H)].
  - intros q d Hd. apply getBN_domain. exact Hd.
  - intros d Hd. destruct (getBN_of_not_finite d Hd) as (Hnan & Hpos & Hneg).
    split; [|split]; eexists; eassumption.
  - intros x d Hx Hd. apply getBN_integer; assumption.
  - intros v d Hv. eexists. apply getNumberFromBN_small. exact Hv.
  - intros v d Hv Hd. apply getNumberFromBN_domain; assumption.
  - intros v d Hv. apply getNumberFromBN_below. exact Hv.
Qed.

Lemma encoder_total_scaler_partial_witness :
  returns (formatStringToBytesArray seventy_a) /\
  returns (getBN (Finite (3 # 2)) 6) /\
  returns (getBN (Finite (- 3 # 2)) 6) /\
  getBN (Finite (inject_Z 3)) 6 = Ok 3000000%Z /\
  returns (getNumberFromBN 3000000%Z 300) /\
  returns (getNumberFromBN (-5)%Z 18) /\
  returns (getNumberFromBN (10 ^ 16)%Z 9).
Proof.
  destruct encoder_total_scaler_partial
    as (Hname & _ & HgetBN & _ & Hinteger & Hfloat & Hbig & _).
  split; [apply Hname|]. split; [|split; [|split; [|split; [|split]]]].
  - apply (HgetBN (3 # 2)%Q 6); [lia|]. vm_compute. reflexivity.
  - apply (HgetBN (- 3 # 2)%Q 6); [lia|]. vm_compute. reflexivity.
  - apply (Hinteger 3%Z 6); [vm_compute; split; congruence | lia].
  - apply (Hfloat 3000000%Z 300). vm_compute. split; congruence.
  - apply (Hfloat (-5)%Z 18). vm_compute. split; congruence.
  - apply (Hbig (10 ^ 16)%Z 9); [vm_compute; reflexivity | lia |].
    split; [lia | vm_compute; reflexivity].
Defined.

(** C4 as stated fails: both scaler functions have an error path.
    getBN(1, 16) throws, because 10 ** 16 is not below 2^53, and
    getNumberFromBN(2^64 - 1, 0) throws, because the quotient does not fit
    53 bits. *)
Lemma scaler_throws :
  getBN (Finite (inject_Z 1)) 16 = Throw AssertionError /\
  getNumberFromBN (2 ^ 64 - 1)%Z 0 = Throw AssertionError.
Proof. split; vm_compute; reflexivity. Qed.

(** A value below 2^53 with few decimals is not enough for getBN to return:
    the double (2^53 - 1) / 10 ** 6 (9007199254.740992) does not pass the
    test, and its double product with 10 ** 6 is 2^53. *)
Example getBN_at_threshold_throws :
  threshold 6 = Finite (4722366482869645 # 524288) /\
  getBN (threshold 6) 6 = Throw AssertionError.
Proof. split; vm_compute; reflexivity. Qed.

(** C5, as the code has it. For every value below 2^53 and decimals count up
    to 15 for which the code's test value > (2^53 - 1) / 10^decimals holds
    in double arithmetic, getBN returns trunc(value) * 10^decimals, computed
    exactly; and for every integer value from 0 below 2^53 whose product
    with 10^decimals exceeds 2^53 - 1 the test holds and the result is that
    product. *)
Theorem getBN_large_product :
  (forall q d, d <= 15 -> (q < inject_Z (2 ^ 53))%Q ->
     number_gt (Finite q) (threshold d) = true ->
     getBN (Finite q) d = Ok (trunc q * 10 ^ Z.of_nat d)%Z) /\
  (forall x d, (0 <= x < 2 ^ 53)%Z -> d <= 15 ->
     (MAX_SAFE < x * 10 ^ Z.of_nat d)%Z ->
     number_gt (Finite (inject_Z x)) (threshold d) = true /\
     getBN (Finite (inject_Z x)) d = Ok (trunc (inject_Z x) * 10 ^ Z.of_nat d)%Z).
Proof.
  split.
  - intros q d Hd Hq Hgt. apply getBN_big_branch; assumption.
  - intros x d Hx Hd Hprod.
    assert (number_gt (Finite (inject_Z x)) (threshold d) = true) as Hgt
      by (apply integer_above_threshold; assumption).
    split; [exact Hgt|].
    apply getBN_big_branch; [exact Hd | | exact Hgt].
    rewrite <- Zlt_Qlt. lia.
Qed.

Lemma getBN_large_product_witness :
  getBN (Finite (4503599627370497 # 2)) 1 = Ok 22517998136852480%Z /\
  getBN (Finite (inject_Z 10000000)) 9 = Ok 10000000000000000%Z.
Proof.
  destruct getBN_large_product as (Hfraction & Hinteger).
  split.
  - apply (Hfraction (4503599627370497 # 2)%Q 1);
      [lia | vm_compute; reflexivity | vm_compute; reflexivity].
  - apply (Hinteger 10000000%Z 9);
      [vm_compute; split; congruence | lia | vm_compute; reflexivity].
Defined.

(** C5 as stated fails: for the value 2^53 and decimals 0 the product
    exceeds 2^53 - 1, yet getBN does not return 2^53: it throws, because
    bn.js refuses a Number that is not below 2^53. *)
Lemma getBN_unsafe_value_throws :
  (inject_Z MAX_SAFE < inject_Z (2 ^ 53) * inject_Z (10 ^ Z.of_nat 0))%Q /\
  getBN (Finite (inject_Z (2 ^ 53))) 0 = Throw AssertionError.
Proof. split; vm_compute; reflexivity. Qed.

(** C6, as the code has it. For every value from 0: above 2^53 - 1, with a
    decimals count up to 15, getNumberFromBN returns the truncating
    quotient by 10^decimals when that quotient is below 2^53 and throws
    when it is not; up to 2^53 - 1, with a decimals count up to 22 (where
    10 ** decimals is the exact power), it returns the double quotient of
    the value by 10 ** decimals, the double nearest to the exact quotient. *)
Theorem getNumberFromBN_branches (v : BN) (d : nat) :
  (0 <= v)%Z ->
  ((MAX_SAFE < v)%Z -> d <= 15 -> (v / 10 ^ Z.of_nat d < 2 ^ 53)%Z ->
     getNumberFromBN v d = Ok (Finite (inject_Z (v / 10 ^ Z.of_nat d)))) /\
  ((MAX_SAFE < v)%Z -> d <= 15 -> (2 ^ 53 <= v / 10 ^ Z.of_nat d)%Z ->
     getNumberFromBN v d = Throw AssertionError) /\
  ((v <= MAX_SAFE)%Z -> d <= 22 ->
     getNumberFromBN v d = Ok (number_div (Finite (inject_Z v)) (pow10 d)) /\
     number_div (Finite (inject_Z v)) (pow10 d)
     = round (inject_Z v / inject_Z (10 ^ Z.of_nat d))).
Proof.
  intros Hv. split; [|split].
  - intros Hgt Hd Hq. apply getNumberFromBN_big; assumption.
  - intros Hgt Hd Hq. apply getNumberFromBN_overflow; assumption.
  - intros Hle Hd. split; [apply getNumberFromBN_small; lia|].
    apply number_div_pow10. exact Hd.
Qed.

Lemma getNumberFromBN_branches_witness :
  getNumberFromBN 10000000000000000%Z 9 = Ok (Finite (inject_Z 10000000)) /\
  getNumberFromBN 1500000%Z 6 = Ok (Finite (3 # 2)).
Proof.
  split.
  - destruct (getNumberFromBN_branches 10000000000000000%Z 9) as (Hbig & _ & _); [lia|].
    apply Hbig; [vm_compute; reflexivity | lia | vm_compute; reflexivity].
  - destruct (getNumberFromBN_branches 1500000%Z 6) as (_ & _ & Hsmall); [lia|].
    destruct Hsmall as [Hsmall _]; [vm_compute; congruence | lia |].
    rewrite Hsmall. vm_compute. reflexivity.
Defined.

(** C6 as stated fails: 2^53 exceeds 2^53 - 1, yet getNumberFromBN(2^53, 0)
    does not return the quotient 2^53: toNumber throws, because the quotient
    does not fit 53 bits. *)
Lemma getNumberFromBN_quotient_throws :
  (MAX_SAFE < 2 ^ 53)%Z /\
  getNumberFromBN (2 ^ 53)%Z 0 = Throw AssertionError.
Proof. split; vm_compute; reflexivity. Qed.

(** C7. For every string the name encoder returns exactly 64 elements: the
    UTF-8 bytes of the first [k] code points, whole, followed by zeros,
    where the kept bytes are at most 64, are the first bytes of the UTF-8
    form of the whole text, and either every code point was kept or the
    bytes of the next one would push the total past 64. The iteration is by
    code point: it cuts the text into single code units and surrogate
    pairs, loses nothing, never parts a leading surrogate from the trailing
    one that follows it, and is the only cut of the text with these
    properties. Each piece is encoded as UTF-8: a strict UTF-8 reader gives
    back the code unit of a single piece and the supplementary code point
    of a pair, and a surrogate on its own is encoded as U+FFFD. In
    particular, 70 ASCII characters yield their first 64 characters and no
    padding. *)
Theorem name_encoder_spec :
  (forall text, exists k,
     let characters := codePoints text in
     let kept := bn_bytes (flat_map TextEncoder_encode (take k characters)) in
     formatStringToBytesArray text = Ok (kept ++ replicate (64 - length kept) 0%Z) /\
     length (kept ++ replicate (64 - length kept) 0%Z) = 64 /\
     length kept <= 64 /\
     (k = length characters \/
      exists char, characters !! k = Some char /\
        64 < length kept + length (TextEncoder_encode char)) /\
     exists rest,
       TextEncoder_encode text = flat_map TextEncoder_encode (take k characters) ++ rest) /\
  (forall text,
     by_code_point text (codePoints text) /\
     forall characters, by_code_point text characters -> characters = codePoints text) /\
  ((forall u, (u < 0xD800 \/ 0xE000 <= u < 0x10000)%N ->
      utf8_scalar (TextEncoder_encode [u]) = Some u) /\
   (forall h l, leading h -> trailing l ->
      utf8_scalar (TextEncoder_encode [h; l])
      = Some (0x10000 + (h - 0xD800) * 0x400 + (l - 0xDC00))%N) /\
   (forall u, leading u \/ trailing u ->
      TextEncoder_encode [u] = [xef; xbf; xbd] /\
      utf8_scalar (TextEncoder_encode [u]) = Some 0xFFFD%N)) /\
  (forall text, length text = 70 -> Forall (fun u => (u < 128)%N) text ->
     formatStringToBytesArray text = Ok (map Z.of_N (take 64 text)) /\
     length (map Z.of_N (take 64 text)) = 64).
Proof.
  split; [|split; [|split]].
  - intros text. destruct (format_spec text) as (k & Hk & Hlen & Hstop).
    exists k. cbv zeta in *. split; [exact Hk|]. split; [|split; [|split]].
    + rewrite length_app, length_replicate. lia.
    + exact Hlen.
    + exact Hstop.
    + exists (flat_map TextEncoder_encode (drop k (codePoints text))).
      rewrite <- flat_map_app, take_drop. symmetry. apply encode_by_code_point.
  - intros text. split; [apply codePoints_by_code_point|].
    intros characters Hcut.
    exact (by_code_point_unique _ _ _ Hcut (codePoints_by_code_point text)).
  - exact encode_character.
  - intros text Hlen Hascii. split.
    + apply format_ascii; [exact Hascii|lia].
    + rewrite length_map, length_take. lia.
Qed.

Lemma name_encoder_spec_witness :
  formatStringToBytesArray seventy_a = Ok (map Z.of_N (take 64 seventy_a)) /\
  length (map Z.of_N (take 64 seventy_a)) = 64 /\
  utf8_scalar (TextEncoder_encode [0x20AC%N]) = Some 0x20AC%N /\
  utf8_scalar (TextEncoder_encode [0xD83D; 0xDE00]%N) = Some 0x1F600%N /\
  TextEncoder_encode [0xD83D%N] = [xef; xbf; xbd] /\
  [[97]; [0xD83D; 0xDE00]; [0xDE00]]%N = codePoints [97; 0xD83D; 0xDE00; 0xDE00]%N.
Proof.
  destruct name_encoder_spec as (_ & Hcut & (Hunit & Hpair & Hlone) & Hascii).
  assert (formatStringToBytesArray seventy_a = Ok (map Z.of_N (take 64 seventy_a)) /\
          length (map Z.of_N (take 64 seventy_a)) = 64) as [H1 H2].
  { apply Hascii; [reflexivity|]. unfold seventy_a. apply Forall_replicate. reflexivity. }
  split; [exact H1|]. split; [exact H2|]. split; [|split; [|split]].
  - apply (Hunit 0x20AC%N). left. vm_compute. reflexivity.
  - apply (Hpair 0xD83D 0xDE00)%N; split; vm_compute; congruence.
  - apply (Hlone 0xD83D%N). left. split; vm_compute; congruence.
  - apply (Hcut [97; 0xD83D; 0xDE00; 0xDE00]%N). split; [reflexivity|]. split.
    + repeat (apply Forall_cons_2; [|]); try apply Forall_nil_2.
      * left. eexists. reflexivity.
      * right. exists 0xD83D%N, 0xDE00%N. split; [reflexivity|].
        split; split; vm_compute; congruence.
      * left. eexists. reflexivity.
    + intros [|[|[|i]]] h l rest Hh Hl; try discriminate Hh; try discriminate Hl.
      injection Hh as <-. intros [[Hlo _] _]. vm_compute in Hlo. apply Hlo. reflexivity.
Defined.

(** C8, as the code has it. decodeStream has no length check of its own: it
    throws (a RangeError, from the first single-byte read that is out of
    range) exactly for the buffers shorter than 463 bytes, the end of the
    last flag, and returns a record for every buffer of at least 463 bytes,
    hence for every buffer of at least 535 bytes. From 463 bytes on every
    field is read from the bytes the layout assigns to it, as far as the
    buffer has them: the name is the decoded text of the up to 64 bytes
    from offset 463 and the withdrawal frequency is the little-endian value
    of the up to 8 bytes from offset 527, so for lengths from 463 to 534
    both are read from the bytes that are left. The result is what the call
    returns: nothing is retried. *)
Theorem decode_length_guard (dec : list byte -> jsstring) (buf : list byte) :
  (length buf < 463 -> decodeStream dec buf = Throw RangeError) /\
  (463 <= length buf ->
     exists r, decodeStream dec buf = Ok r /\
       reads_layout dec buf r /\
       DecodedStream.name r = dec (take 64 (drop 463 buf)) /\
       DecodedStream.withdrawalFrequency r = BN_le (take 8 (drop 527 buf))) /\
  (535 <= length buf -> returns (decodeStream dec buf)).
Proof.
  split; [apply decodeStream_short|]. split.
  - intros Hlen. destruct (decodeStream_long dec buf Hlen) as (r & Hr & Hread).
    exists r. split; [exact Hr|]. split; [exact Hread|]. split.
    + destruct Hread as (_ & _ & _ & Hname). exact Hname.
    + apply (reads_layout_integer dec buf r "withdraw_frequency"
               DecodedStream.withdrawalFrequency Hread).
      unfold integer_fields. repeat constructor.
  - intros Hlen. destruct (decodeStream_long dec buf) as (r & Hr & _); [lia|].
    exists r. exact Hr.
Qed.

Lemma decode_length_guard_witness :
  decodeStream no_text (replicate 462 x00) = Throw RangeError /\
  (exists r, decodeStream no_text short_record = Ok r /\
     reads_layout no_text short_record r /\
     DecodedStream.name r = no_text (take 64 (drop 463 short_record)) /\
     DecodedStream.withdrawalFrequency r = BN_le (take 8 (drop 527 short_record))) /\
  returns (decodeStream no_text all_zero).
Proof.
  split; [|split].
  - destruct (decode_length_guard no_text (replicate 462 x00)) as (Hshort & _ & _).
    apply Hshort. vm_compute. lia.
  - destruct (decode_length_guard no_text short_record) as (_ & Hleft & _).
    apply Hleft. vm_compute. lia.
  - destruct (decode_length_guard no_text all_zero) as (_ & _ & Hlong).
    apply Hlong. vm_compute. lia.
Defined.

(** C8 as stated fails: a buffer of 463 bytes is shorter than 535 bytes and
    decodeStream returns a record for it. *)
Lemma decode_short_buffer_returns :
  length short_record < 535 /\
  returns (decodeStream no_text short_record).
Proof.
  split; [vm_compute; lia|]. eexists. vm_compute. reflexivity.
Qed.




(** C10. formatDecodedStream is partial on decoded records. On the 535
    bytes 0xFF decodeStream returns a record whose magic is 2^64 - 1, and
    formatDecodedStream, hence getOne, throws on it; and for every decoded
    record formatDecodedStream throws exactly when one of the nine 64-bit
    fields it converts with toNumber does not fit 53 bits (the version and
    the two fee percents always fit). *)
Theorem formatDecodedStream_partial
    (dec : list byte -> jsstring) (b58 : PublicKey -> string) :
  (exists r, length all_ones = 535 /\ decodeStream dec all_ones = Ok r /\
     unsafe_field r /\ formatDecodedStream b58 r = Throw AssertionError /\
     getOne dec b58 all_ones = Throw AssertionError) /\
  (forall buf r, 535 <= length buf -> decodeStream dec buf = Ok r ->
     (unsafe_field r <-> throws (formatDecodedStream b58 r))).
Proof.
  split.
  - destruct (decodeStream_long dec all_ones) as (r & Hr & Hread); [vm_compute; lia|].
    exists r. split; [reflexivity|]. split; [exact Hr|].
    assert (DecodedStream.magic r = 18446744073709551615%Z) as Hmagic.
    { rewrite (reads_layout_integer dec all_ones r "magic" DecodedStream.magic Hread)
        by (unfold integer_fields; repeat constructor).
      vm_compute. reflexivity. }
    assert (formatDecodedStream b58 r = Throw AssertionError) as Hformat.
    { unfold formatDecodedStream. rewrite Hmagic. reflexivity. }
    split; [|split; [exact Hformat|]].
    + left. rewrite Hmagic. vm_compute. discriminate.
    + unfold getOne. rewrite Hr. exact Hformat.
  - intros buf r _ Hr. exact (decoded_format_throws dec b58 buf r Hr).
Qed.

Lemma formatDecodedStream_partial_witness :
  535 <= length all_zero /\
  exists r, decodeStream no_text all_zero = Ok r /\
    (unsafe_field r <-> throws (formatDecodedStream no_base58 r)).
Proof.
  split; [vm_compute; lia|].
  destruct (decodeStream_long no_text all_zero) as (r & Hr & _); [vm_compute; lia|].
  exists r. split; [exact Hr|].
  destruct (formatDecodedStream_partial no_text no_base58) as (_ & Hiff).
  apply (Hiff all_zero r); [vm_compute; lia | exact Hr].
Defined.

(** * Further properties of the code *)

(** ** The record codec and getOne *)

(** ** Further properties of the record codec *)

Lemma slice_take b m s e : e <= m -> slice (take m b) s e = slice b s e.
Proof.
  intros He. unfold slice.
  destruct (decide (s <= e)) as [Hse|Hse].
  - rewrite skipn_firstn_comm, take_take. f_equal. lia.
  - replace (e - s) with 0 by lia. reflexivity.
Qed.

Lemma pure_decode_take fd b m offset :
  offset + getSpan fd <= m ->
  pure_decode fd (take m b) offset = pure_decode fd b offset.
Proof.
  intros Hm. destruct fd as [n p|p]; cbn [pure_decode getSpan] in *;
    rewrite slice_take by lia; reflexivity.
Qed.

Lemma struct_fill_take fields : forall b m offset dest,
  offset + layout_span fields <= m ->
  struct_fill fields (take m b) offset dest = struct_fill fields b offset dest.
Proof.
  induction fields as [|fd rest IH]; intros b m offset dest Hm; [reflexivity|].
  cbn [struct_fill layout_span foldr] in *.
  rewrite pure_decode_take by lia. apply IH. unfold layout_span. lia.
Qed.

(** X1: Bytes after the 535th play no part in the decoding. *)
Theorem decode_ignores_trailing_bytes (dec : list byte -> jsstring) (buf : list byte) :
  535 <= length buf ->
  decodeStream dec buf = decodeStream dec (take 535 buf).
Proof.
  intros Hlen. unfold decodeStream.
  rewrite !struct_decode_in_range, !in_range_layout.
  rewrite length_take.
  rewrite !bool_decide_eq_true_2 by lia.
  rewrite (struct_fill_take TokenStreamDataLayout buf 535 0 ∅) by (cbn; lia).
  reflexivity.
Qed.

Lemma decode_ignores_trailing_bytes_witness :
  decodeStream no_text (all_zero ++ [xff; xff])
  = decodeStream no_text (take 535 (all_zero ++ [xff; xff])).
Proof.
  apply (decode_ignores_trailing_bytes no_text (all_zero ++ [xff; xff])).
  vm_compute. lia.
Defined.

Lemma reads_layout_flag dec buf r p get :
  reads_layout dec buf r -> (p, get) ∈ flag_fields ->
  get r = Boolean (le_decode (field_bytes buf p)).
Proof.
  intros (_ & _ & Hf & _) Hin. rewrite Forall_forall in Hf. exact (Hf _ Hin).
Qed.

Lemma slice_one buf o x : buf !! o = Some x -> slice buf o (o + 1) = [x].
Proof.
  intros Hx. unfold slice. replace (o + 1 - o) with 1 by lia.
  rewrite (drop_S buf x o Hx). reflexivity.
Qed.

Lemma Boolean_byte x : Boolean (le_decode [x]) = true <-> x <> x00.
Proof.
  unfold Boolean. cbn [le_decode]. rewrite N.mul_0_r, N.add_0_r.
  rewrite negb_true_iff, N.eqb_neq. split.
  - intros Hne ->. apply Hne. reflexivity.
  - intros Hne Hz. apply Hne.
    pose proof (Byte.of_to_N x) as Hx. rewrite Hz in Hx.
    change (Byte.of_N 0) with (Some x00) in Hx. congruence.
Qed.

Lemma decoded_flag dec buf r p get o x :
  reads_layout dec buf r -> (p, get) ∈ flag_fields ->
  field_entry TokenStreamDataLayout 0 p = Some (o, u8 p) ->
  buf !! o = Some x ->
  get r = true <-> x <> x00.
Proof.
  intros Hread Hin He Hx. rewrite (reads_layout_flag dec buf r p get Hread Hin).
  unfold field_bytes. rewrite He. cbn [getSpan]. rewrite (slice_one buf o x Hx).
  apply Boolean_byte.
Qed.

(** X2: A flag of a decoded record is set exactly when the byte at the flag's
    offset is not zero: every value from 1 to 255 reads as true. *)
Theorem decoded_flags_nonzero (dec : list byte -> jsstring) (buf : list byte)
    (r : DecodedStream.t) :
  decodeStream dec buf = Ok r ->
  Forall (fun e => forall x, buf !! fst e = Some x -> (snd e r = true <-> x <> x00))
         flag_offsets.
Proof.
  intros Hr.
  destruct (le_lt_dec 463 (length buf)) as [Hlen|Hlen].
  2: { rewrite decodeStream_short in Hr by exact Hlen. discriminate Hr. }
  destruct (decodeStream_long dec buf Hlen) as (r' & Hr' & Hread).
  rewrite Hr in Hr'. injection Hr' as <-.
  unfold flag_offsets.
  repeat (apply Forall_cons_2;
    [cbn [fst snd]; intros x Hx;
     first
       [ exact (decoded_flag dec buf r "cancelable_by_sender" _ _ x Hread
                  ltac:(unfold flag_fields; repeat constructor)
                  ltac:(vm_compute; reflexivity) Hx)
       | exact (decoded_flag dec buf r "cancelable_by_recipient" _ _ x Hread
                  ltac:(unfold flag_fields; repeat constructor)
                  ltac:(vm_compute; reflexivity) Hx)
       | exact (decoded_flag dec buf r "automatic_withdrawal" _ _ x Hread
                  ltac:(unfold flag_fields; repeat constructor)
                  ltac:(vm_compute; reflexivity) Hx)
       | exact (decoded_flag dec buf r "transferable_by_sender" _ _ x Hread
                  ltac:(unfold flag_fields; repeat constructor)
                  ltac:(vm_compute; reflexivity) Hx)
       | exact (decoded_flag dec buf r "transferable_by_recipient" _ _ x Hread
                  ltac:(unfold flag_fields; repeat constructor)
                  ltac:(vm_compute; reflexivity) Hx)
       | exact (decoded_flag dec buf r "can_topup" _ _ x Hread
                  ltac:(unfold flag_fields; repeat constructor)
                  ltac:(vm_compute; reflexivity) Hx) ] |]).
  apply Forall_nil_2.
Qed.

Lemma decoded_flags_nonzero_witness :
  exists r, decodeStream no_text all_ones = Ok r /\
    Forall (fun e => forall x, all_ones !! fst e = Some x ->
                               (snd e r = true <-> x <> x00)) flag_offsets.
Proof.
  eexists. split; [vm_compute; reflexivity|].
  apply (decoded_flags_nonzero no_text all_ones). vm_compute. reflexivity.
Defined.

Lemma reads_layout_name dec buf r :
  reads_layout dec buf r -> DecodedStream.name r = dec (field_bytes buf "stream_name").
Proof. intros (_ & _ & _ & Hn). exact Hn. Qed.

(** X3: A record cut off after the flags still decodes: the name is whatever is
    left of the buffer and, up to 527 bytes, the withdrawal frequency reads
    as zero. *)
Theorem truncated_record_reads_zero (dec : list byte -> jsstring) (buf : list byte) :
  463 <= length buf <= 527 ->
  exists r, decodeStream dec buf = Ok r /\
    DecodedStream.withdrawalFrequency r = 0%Z /\
    DecodedStream.name r = dec (drop 463 buf).
Proof.
  intros [Hlo Hhi].
  destruct (decodeStream_long dec buf Hlo) as (r & Hr & Hread).
  exists r. split; [exact Hr|]. split.
  - rewrite (reads_layout_integer dec buf r "withdraw_frequency"
               DecodedStream.withdrawalFrequency Hread)
      by (unfold integer_fields; repeat constructor).
    unfold field_bytes.
    replace (field_entry TokenStreamDataLayout 0 "withdraw_frequency")
      with (Some (527, blob 8 "withdraw_frequency")) by (vm_compute; reflexivity).
    unfold slice. rewrite drop_ge by lia. reflexivity.
  - rewrite (reads_layout_name dec buf r Hread). f_equal.
    unfold field_bytes.
    replace (field_entry TokenStreamDataLayout 0 "stream_name")
      with (Some (463, blob 64 "stream_name")) by (vm_compute; reflexivity).
    unfold slice. apply take_ge. rewrite length_drop. cbn [getSpan]. lia.
Qed.

Lemma truncated_record_reads_zero_witness :
  exists r, decodeStream no_text short_record = Ok r /\
    DecodedStream.withdrawalFrequency r = 0%Z /\
    DecodedStream.name r = no_text (drop 463 short_record).
Proof.
  apply (truncated_record_reads_zero no_text short_record). vm_compute. lia.
Defined.

(** X4: Every integer of a decoded record lies in the range of its field: at
    least 0 and below 2^64, the version below 2^8 and the two fee percents
    below 2^32. *)
Theorem decoded_fields_in_range (dec : list byte -> jsstring) (buf : list byte)
    (r : DecodedStream.t) :
  decodeStream dec buf = Ok r ->
  Forall (fun e => (0 <= snd e r < 2 ^ 64)%Z) integer_fields /\
  (DecodedStream.version r < 2 ^ 8)%Z /\
  (DecodedStream.streamdaoFeePercent r < 2 ^ 32)%Z /\
  (DecodedStream.partnerFeePercent r < 2 ^ 32)%Z.
Proof.
  intros Hr.
  destruct (le_lt_dec 463 (length buf)) as [Hlen|Hlen].
  2: { rewrite decodeStream_short in Hr by exact Hlen. discriminate Hr. }
  destruct (decodeStream_long dec buf Hlen) as (r' & Hr' & Hread).
  rewrite Hr in Hr'. injection Hr' as <-.
  assert (forall p get o fd, (p, get) ∈ integer_fields ->
            field_entry TokenStreamDataLayout 0 p = Some (o, fd) ->
            getSpan fd <= 8 -> (0 <= get r < 2 ^ 64)%Z) as Hbound.
  { intros p get o fd Hin He Hspan.
    pose proof (decoded_integer_bound dec buf r p get o fd Hread Hin He) as [H0 H1].
    split; [exact H0|]. eapply Z.lt_le_trans; [exact H1|].
    change (2 ^ 64)%Z with (256 ^ Z.of_nat 8)%Z. apply Z.pow_le_mono_r; lia. }
  split; [|split; [|split]].
  - unfold integer_fields.
    repeat (apply Forall_cons_2;
      [cbn [fst snd];
       match goal with
       | |- (0 <= ?get r < _)%Z =>
           first
             [ eapply (Hbound _ get);
               [unfold integer_fields; repeat constructor
               | vm_compute; reflexivity | cbn; lia] ]
       end |]).
    apply Forall_nil_2.
  - field_bound Hread "version" DecodedStream.version.
    change (256 ^ Z.of_nat 1)%Z with (2 ^ 8)%Z in *. lia.
  - field_bound Hread "streamdao_fee_percent" DecodedStream.streamdaoFeePercent.
    change (256 ^ Z.of_nat 4)%Z with (2 ^ 32)%Z in *. lia.
  - field_bound Hread "partner_fee_percent" DecodedStream.partnerFeePercent.
    change (256 ^ Z.of_nat 4)%Z with (2 ^ 32)%Z in *. lia.
Qed.

Lemma decoded_fields_in_range_witness :
  exists r, decodeStream no_text all_ones = Ok r /\
    Forall (fun e => (0 <= snd e r < 2 ^ 64)%Z) integer_fields /\
    (DecodedStream.version r < 2 ^ 8)%Z /\
    (DecodedStream.streamdaoFeePercent r < 2 ^ 32)%Z /\
    (DecodedStream.partnerFeePercent r < 2 ^ 32)%Z.
Proof.
  eexists. split; [vm_compute; reflexivity|].
  apply (decoded_fields_in_range no_text all_ones). vm_compute. reflexivity.
Defined.

Lemma toNumber_inv v n : toNumber v = Ok n -> n = Finite (inject_Z v).
Proof.
  unfold toNumber. destruct (Z.abs v <? 2 ^ 53)%Z; [|discriminate].
  intros H. injection H as <-. reflexivity.
Qed.

Lemma toNumber_error v e : toNumber v = Throw e -> e = AssertionError.
Proof.
  unfold toNumber. destruct (Z.abs v <? 2 ^ 53)%Z; [discriminate|].
  intros H. injection H as <-. reflexivity.
Qed.

Ltac case_toNumber :=
  match goal with
  | H : context [toNumber ?v] |- _ =>
      let E := fresh "E" in
      let n := fresh "n" in
      let e := fresh "e" in
      destruct (toNumber v) as [n|e] eqn:E;
      [ apply toNumber_inv in E; cbn [bind] in H
      | apply toNumber_error in E; cbn [bind] in H ]
  end.

Lemma formatDecodedStream_error b58 r e :
  formatDecodedStream b58 r = Throw e -> e = AssertionError.
Proof.
  unfold formatDecodedStream. intros H.
  repeat (case_toNumber; [|congruence]). discriminate H.
Qed.

Lemma formatDecodedStream_ok b58 r s :
  formatDecodedStream b58 r = Ok s -> formatted_from b58 r s.
Proof.
  unfold formatDecodedStream. intros H.
  repeat (case_toNumber; [|discriminate H]).
  injection H as <-. subst.
  unfold formatted_from, number_fields, amount_fields.
  unfold printed_keys, copied_flags.
  split; [|split; [|split; [|split]]]; [ | | | | reflexivity];
    repeat (apply Forall_cons_2; [reflexivity|]); apply Forall_nil_2.
Qed.

(** X5: When no converted field is 2^53 or more, formatting a decoded record
    returns, and nothing is lost: every number of the result is exactly the
    decoded integer, the amounts are passed on unchanged, and keys, flags
    and name are those of the record. *)
Theorem format_keeps_values (dec : list byte -> jsstring) (b58 : PublicKey -> string)
    (buf : list byte) (r : DecodedStream.t) :
  decodeStream dec buf = Ok r -> ~ unsafe_field r ->
  exists s, formatDecodedStream b58 r = Ok s /\ formatted_from b58 r s.
Proof.
  intros Hr Hsafe.
  destruct (formatDecodedStream b58 r) as [s|e] eqn:Hs.
  - exists s. split; [reflexivity|]. apply formatDecodedStream_ok. exact Hs.
  - exfalso. apply Hsafe.
    apply (decoded_format_throws dec b58 buf r Hr). exists e. exact Hs.
Qed.

Lemma format_keeps_values_witness :
  exists r, decodeStream no_text canceled_marker = Ok r /\
    ~ unsafe_field r /\
    exists s, formatDecodedStream no_base58 r = Ok s /\ formatted_from no_base58 r s.
Proof.
  eexists. split; [vm_compute; reflexivity|].
  match goal with
  | |- ~ unsafe_field ?r /\ _ => assert (~ unsafe_field r) as Hsafe
  end.
  { unfold unsafe_field. cbn. lia. }
  split; [exact Hsafe|].
  apply (format_keeps_values no_text no_base58 canceled_marker);
    [vm_compute; reflexivity|exact Hsafe].
Defined.

(** X6: The outcome of getOne, by cases: a RangeError for data shorter than 463
    bytes; otherwise the data decodes, and getOne throws bn.js's assertion
    error when a converted field is 2^53 or more and returns the formatted
    record when none is. It throws nothing else. *)
Theorem getOne_outcomes (dec : list byte -> jsstring) (b58 : PublicKey -> string)
    (data : list byte) :
  (length data < 463 /\ getOne dec b58 data = Throw RangeError) \/
  (463 <= length data /\
   exists r, decodeStream dec data = Ok r /\
     ((unsafe_field r /\ getOne dec b58 data = Throw AssertionError) \/
      (~ unsafe_field r /\
       exists s, getOne dec b58 data = Ok s /\ formatted_from b58 r s))).
Proof.
  destruct (le_lt_dec 463 (length data)) as [Hlen|Hlen].
  - right. split; [exact Hlen|].
    destruct (decodeStream_long dec data Hlen) as (r & Hr & _).
    exists r. split; [exact Hr|]. unfold getOne. rewrite Hr. cbn [bind].
    destruct (formatDecodedStream b58 r) as [s|e] eqn:Hs.
    + right. split.
      * intros Hunsafe. apply (decoded_format_throws dec b58 data r Hr) in Hunsafe.
        destruct Hunsafe as [e He]. congruence.
      * exists s. split; [reflexivity|]. apply formatDecodedStream_ok. exact Hs.
    + left. split.
      * apply (decoded_format_throws dec b58 data r Hr). exists e. exact Hs.
      * rewrite (formatDecodedStream_error b58 r e Hs). reflexivity.
  - left. split; [exact Hlen|]. unfold getOne.
    rewrite decodeStream_short by exact Hlen. reflexivity.
Qed.

(** ** The amount scaler *)

Local Open Scope Z_scope.

(** ** Further properties of the amount scaler *)

(** X7: Whole amounts survive the round trip on either branch: for every
    integer value from 0 below 2^53 and every decimals count up to 15,
    getNumberFromBN(getBN(value, decimals), decimals) is the value, also when
    the scaled amount is far above 2^53 - 1. *)
Theorem integer_round_trip (x : Z) (d : nat) :
  0 <= x < 2 ^ 53 -> (d <= 15)%nat ->
  round_trip (Finite (inject_Z x)) d = Ok (Finite (inject_Z x)).
Proof.
  intros Hx Hd. unfold round_trip. rewrite (getBN_integer x d Hx Hd). cbn [bind].
  pose proof (pow10_pos d) as Hpos.
  destruct (Z.le_gt_cases (x * 10 ^ Z.of_nat d) MAX_SAFE) as [Hle|Hgt].
  - rewrite getNumberFromBN_small by (unfold MAX_SAFE in *; nia).
    rewrite number_div_pow10 by lia.
    rewrite (round_compat _ (inject_Z x)); [rewrite round_Z by lia; reflexivity|].
    unfold Qeq, Qdiv, Qinv, Qmult, inject_Z. cbn [Qnum Qden].
    destruct (10 ^ Z.of_nat d) as [|p|p] eqn:Hp; [lia| |lia].
    cbn [Qnum Qden]. lia.
  - assert (x * 10 ^ Z.of_nat d / 10 ^ Z.of_nat d = x) as Hq
      by (apply Z.div_mul; lia).
    rewrite getNumberFromBN_big; [rewrite Hq; reflexivity | lia | exact Hd |].
    rewrite Hq. lia.
Qed.

Lemma integer_round_trip_witness :
  round_trip (Finite (inject_Z 18000000)) 9 = Ok (Finite (inject_Z 18000000)).
Proof.
  apply (integer_round_trip 18000000 9); [vm_compute; split; congruence | lia].
Defined.

(** X8: Values that are not finite: for a decimals count up to 22, getBN turns
    NaN into 0 without any error (bn.js reads it as "no number") and throws
    for either infinity. *)
Theorem getBN_not_finite (d : nat) :
  (d <= 22)%nat ->
  getBN NaN d = Ok 0 /\
  getBN (Infinity false) d = Throw AssertionError /\
  getBN (Infinity true) d = Throw AssertionError.
Proof.
  intros Hd. destruct (threshold_finite d Hd) as (f & Hf).
  unfold getBN. fold (threshold d). rewrite Hf, (pow10_exact_22 d Hd).
  pose proof (pow10_pos d) as Hpos.
  split; [reflexivity|]. split; [reflexivity|].
  cbn [number_gt number_mul]. unfold is_zero. cbn [Qnum inject_Z].
  destruct (Z.eqb_spec (10 ^ Z.of_nat d) 0); [lia|reflexivity].
Qed.

Lemma getBN_not_finite_witness :
  getBN NaN 9 = Ok 0 /\
  getBN (Infinity false) 9 = Throw AssertionError /\
  getBN (Infinity true) 9 = Throw AssertionError.
Proof. apply (getBN_not_finite 9). lia. Defined.

(** X9: With a decimals count from 16 to 22 the arbitrary-precision branch is
    closed, because 10 ** decimals itself is not below 2^53: getNumberFromBN
    throws for every amount above 2^53 - 1, and getBN throws for every value
    that passes its test. *)
Theorem many_decimals_throw (d : nat) :
  (16 <= d <= 22)%nat ->
  (forall v, MAX_SAFE < v -> getNumberFromBN v d = Throw AssertionError) /\
  (forall q, number_gt (Finite q) (threshold d) = true ->
     getBN (Finite q) d = Throw AssertionError).
Proof.
  intros Hd. split.
  - intros v Hv. unfold getNumberFromBN.
    rewrite (BN_of_number_Z MAX_SAFE) by (vm_compute; reflexivity). cbn [bind].
    destruct (Z.gtb_spec v MAX_SAFE) as [_|Hle]; [|lia].
    rewrite (pow10_unsafe d Hd). reflexivity.
  - intros q Hgt. unfold getBN. fold (threshold d). rewrite Hgt.
    destruct (BN_of_number (Finite q)) as [a|e] eqn:Ha.
    + cbn [bind]. rewrite (pow10_unsafe d Hd). reflexivity.
    + cbn [bind]. rewrite (BN_of_number_error _ _ Ha). reflexivity.
Qed.

Lemma many_decimals_throw_witness :
  getNumberFromBN (2 ^ 60) 18 = Throw AssertionError /\
  getBN (Finite (inject_Z 1)) 18 = Throw AssertionError.
Proof.
  destruct (many_decimals_throw 18) as (Hnumber & Hbn); [lia|].
  split.
  - apply Hnumber. vm_compute. reflexivity.
  - apply Hbn. vm_compute. reflexivity.
Defined.

Local Close Scope Z_scope.

(** ** The name encoder *)

(** ** Further properties of the name encoder *)

Lemma flat_map_length_split {A B} (f : A -> list B) (l : list A) k x :
  l !! k = Some x ->
  length (flat_map f (take k l)) + length (f x) <= length (flat_map f l).
Proof.
  intros Hx.
  assert (length (flat_map f l)
          = length (flat_map f (take k l ++ x :: drop (S k) l))) as ->
    by (rewrite (take_drop_middle l k x Hx); reflexivity).
  rewrite flat_map_app. cbn [flat_map]. rewrite !length_app. lia.
Qed.

(** X10: A text whose UTF-8 encoding fits the field is stored whole: the result
    is that encoding followed by zeros up to 64. *)
Theorem short_name_stored_whole (text : jsstring) :
  length (TextEncoder_encode text) <= 64 ->
  formatStringToBytesArray text
  = Ok (bn_bytes (TextEncoder_encode text)
        ++ replicate (64 - length (TextEncoder_encode text)) 0%Z).
Proof.
  intros Hfit. destruct (format_spec text) as (k & Hk & Hlen & Hstop).
  cbv zeta in *.
  assert (take k (codePoints text) = codePoints text) as Hall.
  { destruct Hstop as [->|(char & Hchar & Hover)]; [apply firstn_all|].
    exfalso. rewrite bn_bytes_length in Hover.
    pose proof (flat_map_length_split TextEncoder_encode _ k char Hchar) as Hsplit.
    rewrite encode_by_code_point in Hsplit. lia. }
  rewrite Hall, encode_by_code_point in Hk. rewrite Hk, bn_bytes_length. reflexivity.
Qed.

Lemma short_name_stored_whole_witness :
  formatStringToBytesArray [0x20AC%N; 0xD83D%N; 0xDE00%N]
  = Ok (bn_bytes (TextEncoder_encode [0x20AC%N; 0xD83D%N; 0xDE00%N])
        ++ replicate (64 - length (TextEncoder_encode [0x20AC%N; 0xD83D%N; 0xDE00%N])) 0%Z).
Proof. apply short_name_stored_whole. vm_compute. lia. Defined.

Lemma utf8_bytes_length c : 1 <= length (utf8_bytes c) <= 4.
Proof.
  unfold utf8_bytes.
  destruct (c <? 0x80)%N; [cbn; lia|].
  destruct (c <? 0x800)%N; [cbn; lia|].
  destruct (c <? 0x10000)%N; cbn; lia.
Qed.

Lemma codePoints_encode_length_upto n : forall text,
  length text <= n ->
  Forall (fun char => 1 <= length (TextEncoder_encode char) <= 4) (codePoints text).
Proof.
  induction n as [|n IH]; intros text Hlen.
  - destruct text; [apply Forall_nil_2|cbn in Hlen; lia].
  - destruct text as [|u [|v rest]]; [apply Forall_nil_2| |].
    + cbn [codePoints]. apply Forall_cons_2; [|apply Forall_nil_2].
      unfold TextEncoder_encode. cbn [scalarValues flat_map]. rewrite app_nil_r.
      apply utf8_bytes_length.
    + change (codePoints (u :: v :: rest))
        with (if is_high_surrogate u && is_low_surrogate v
              then [u; v] :: codePoints rest
              else [u] :: codePoints (v :: rest)).
      cbn [length] in Hlen.
      destruct (is_high_surrogate u && is_low_surrogate v) eqn:Hpair.
      * apply Forall_cons_2; [|apply IH; lia].
        unfold TextEncoder_encode. cbn [scalarValues]. rewrite Hpair.
        cbn [flat_map]. rewrite app_nil_r. apply utf8_bytes_length.
      * apply Forall_cons_2; [|apply IH; cbn [length]; lia].
        unfold TextEncoder_encode. cbn [scalarValues flat_map]. rewrite app_nil_r.
        apply utf8_bytes_length.
Qed.

(** X11: A text too long for the field is cut at a code point, and the cut costs
    at most three bytes: at least 61 of the 64 bytes are text. *)
Theorem long_name_keeps_61_bytes (text : jsstring) :
  64 < length (TextEncoder_encode text) ->
  exists k, k < length (codePoints text) /\
    let kept := bn_bytes (flat_map TextEncoder_encode (take k (codePoints text))) in
    formatStringToBytesArray text = Ok (kept ++ replicate (64 - length kept) 0%Z) /\
    61 <= length kept <= 64.
Proof.
  intros Hlong. destruct (format_spec text) as (k & Hk & Hlen & Hstop).
  cbv zeta in *. exists k.
  destruct Hstop as [->|(char & Hchar & Hover)].
  - exfalso. rewrite firstn_all, encode_by_code_point, bn_bytes_length in Hlen. lia.
  - split; [apply lookup_lt_Some in Hchar; exact Hchar|].
    split; [exact Hk|].
    pose proof (codePoints_encode_length_upto (length text) text (le_n _)) as Hall.
    rewrite Forall_forall in Hall.
    pose proof (Hall char (list_elem_of_lookup_2 _ _ _ Hchar)) as Hchar4. lia.
Qed.

Lemma long_name_keeps_61_bytes_witness :
  exists k, k < length (codePoints (replicate 63 97%N ++ [0x20AC%N])) /\
    let kept := bn_bytes (flat_map TextEncoder_encode
                            (take k (codePoints (replicate 63 97%N ++ [0x20AC%N])))) in
    formatStringToBytesArray (replicate 63 97%N ++ [0x20AC%N])
      = Ok (kept ++ replicate (64 - length kept) 0%Z) /\
    61 <= length kept <= 64.
Proof. apply long_name_keeps_61_bytes. vm_compute. lia. Defined.

(** ** Stream.get *)

Lemma sort_by_startTime_keeps_order l : Array_sort by_startTime l = l.
Proof.
  induction l as [|x rest IH]; [reflexivity|].
  cbn [Array_sort]. rewrite IH. destruct rest as [|y rest']; reflexivity.
Qed.

Lemma obj_set_keys {V} (o : list (string * V)) k v :
  map fst (obj_set o k v)
  = if decide (k ∈ map fst o) then map fst o else map fst o ++ [k].
Proof.
  induction o as [|[k' v'] rest IH]; [reflexivity|].
  cbn [obj_set map fst]. destruct (decide (k' = k)) as [->|Hne].
  - cbn [map fst]. rewrite decide_True by (left). reflexivity.
  - cbn [map fst]. rewrite IH.
    destruct (decide (k ∈ map fst rest)) as [Hin|Hout].
    + rewrite decide_True by (right; exact Hin). reflexivity.
    + rewrite decide_False; [reflexivity|].
      intros Hin. apply elem_of_cons in Hin as [->|Hin]; [apply Hne; reflexivity|].
      apply Hout. exact Hin.
Qed.

Lemma obj_set_new {V} (o : list (string * V)) k v :
  k ∉ map fst o -> obj_set o k v = o ++ [(k, v)].
Proof.
  induction o as [|[k' v'] rest IH]; intros Hk; [reflexivity|].
  cbn [obj_set map fst] in *. apply not_elem_of_cons in Hk as [Hne Hk].
  rewrite decide_False by congruence. rewrite IH by exact Hk. reflexivity.
Qed.

Lemma obj_set_values {V} (o : list (string * V)) k v e :
  e ∈ obj_set o k v -> e = (k, v) \/ e ∈ o.
Proof.
  induction o as [|[k' v'] rest IH]; cbn [obj_set].
  - intros He. apply list_elem_of_singleton in He. left. exact He.
  - destruct (decide (k' = k)) as [->|Hne]; intros He;
      apply elem_of_cons in He as [->|He].
    + left. reflexivity.
    + right. right. exact He.
    + right. left.
    + destruct (IH He) as [->|Hin]; [left; reflexivity|right; right; exact Hin].
Qed.

Lemma obj_set_NoDup {V} (o : list (string * V)) k v :
  NoDup (map fst o) -> NoDup (map fst (obj_set o k v)).
Proof.
  intros Hnd. rewrite obj_set_keys.
  destruct (decide (k ∈ map fst o)) as [Hin|Hout]; [exact Hnd|].
  apply NoDup_app. split; [exact Hnd|]. split.
  - intros x Hx Hk. apply list_elem_of_singleton in Hk. subst. contradiction.
  - apply NoDup_singleton.
Qed.

Section ListingProofs.

Variable dec : list byte -> jsstring.
Variable b58 : PublicKey -> string.
Variable scan : nat -> list Account.

Lemma collect_returns accounts : forall streams,
  returns (collect dec b58 accounts streams)
  <-> Forall (fun a => returns (getOne dec b58 (data a))) accounts.
Proof.
  induction accounts as [|a rest IH]; intros streams; cbn [collect].
  - split; [intros _; apply Forall_nil_2|intros _; eexists; reflexivity].
  - destruct (getOne dec b58 (data a)) as [s|e] eqn:Hs; cbn [bind].
    + rewrite IH. split.
      * intros Hrest. apply Forall_cons_2; [|exact Hrest].
        exists s. exact Hs.
      * intros Hall. apply Forall_cons in Hall as [_ Hrest]. exact Hrest.
    + split.
      * intros [out Hout]. discriminate Hout.
      * intros Hall. apply Forall_cons in Hall as [[s Hs'] _]. congruence.
Qed.

Lemma collect_throws accounts : forall streams e,
  collect dec b58 accounts streams = Throw e ->
  exists a, a ∈ accounts /\ getOne dec b58 (data a) = Throw e.
Proof.
  induction accounts as [|a rest IH]; intros streams e; cbn [collect]; [discriminate|].
  destruct (getOne dec b58 (data a)) as [s|e'] eqn:Hs; cbn [bind].
  - intros Hrest. destruct (IH _ _ Hrest) as (a' & Hin & Ha').
    exists a'. split; [right; exact Hin|exact Ha'].
  - intros H. injection H as <-. exists a. split; [left|exact Hs].
Qed.

Lemma collect_NoDup accounts : forall streams out,
  collect dec b58 accounts streams = Ok out ->
  NoDup (map fst streams) -> NoDup (map fst out).
Proof.
  induction accounts as [|a rest IH]; intros streams out; cbn [collect].
  - intros H. injection H as <-. auto.
  - destruct (getOne dec b58 (data a)) as [s|e]; cbn [bind]; [|discriminate].
    intros Hrest Hnd. apply (IH _ _ Hrest). apply obj_set_NoDup. exact Hnd.
Qed.

Lemma collect_keys accounts : forall streams out,
  collect dec b58 accounts streams = Ok out ->
  forall k, k ∈ map fst out
            <-> k ∈ map fst streams \/ k ∈ map (account_id b58) accounts.
Proof.
  induction accounts as [|a rest IH]; intros streams out; cbn [collect].
  - intros H k. injection H as <-. cbn [map]. rewrite elem_of_nil. tauto.
  - destruct (getOne dec b58 (data a)) as [s|e]; cbn [bind]; [|discriminate].
    intros Hrest k. rewrite (IH _ _ Hrest k), obj_set_keys. cbn [map].
    fold (account_id b58 a). rewrite elem_of_cons.
    destruct (decide (account_id b58 a ∈ map fst streams)) as [Hin|Hout].
    + split; [tauto|]. intros [H|[->|H]]; tauto.
    + rewrite elem_of_app, list_elem_of_singleton. tauto.
Qed.

Lemma collect_values accounts : forall streams out e,
  collect dec b58 accounts streams = Ok out -> e ∈ out ->
  e ∈ streams \/
  exists a, a ∈ accounts /\ fst e = account_id b58 a /\
    getOne dec b58 (data a) = Ok (snd e).
Proof.
  induction accounts as [|a rest IH]; intros streams out e; cbn [collect].
  - intros H He. injection H as <-. left. exact He.
  - destruct (getOne dec b58 (data a)) as [s|e'] eqn:Hs; cbn [bind]; [|discriminate].
    intros Hrest He. destruct (IH _ _ _ Hrest He) as [Hin|(a' & Hin & Hid & Hget)].
    + apply obj_set_values in Hin as [->|Hin]; [|left; exact Hin].
      right. exists a. split; [left|]. split; [reflexivity|exact Hs].
    + right. exists a'. split; [right; exact Hin|]. split; assumption.
Qed.

Lemma collect_in_order accounts : forall streams out,
  collect dec b58 accounts streams = Ok out ->
  NoDup (map (account_id b58) accounts) ->
  (forall a, a ∈ accounts -> account_id b58 a ∉ map fst streams) ->
  exists new, out = streams ++ new /\
    Forall2 (fun a e => fst e = account_id b58 a /\
                        getOne dec b58 (data a) = Ok (snd e)) accounts new.
Proof.
  induction accounts as [|a rest IH]; intros streams out; cbn [collect].
  - intros H _ _. injection H as <-. exists []. rewrite app_nil_r.
    split; [reflexivity|apply Forall2_nil_2].
  - destruct (getOne dec b58 (data a)) as [s|e'] eqn:Hs; cbn [bind]; [|discriminate].
    intros Hrest Hnd Hfresh. cbn [map] in Hnd. apply NoDup_cons in Hnd as [Hnotin Hnd].
    fold (account_id b58 a) in Hrest.
    rewrite obj_set_new in Hrest by (apply Hfresh; left).
    destruct (IH _ _ Hrest Hnd) as (new & -> & Hall).
    + intros a' Ha'. rewrite map_app, elem_of_app. cbn [map fst].
      rewrite list_elem_of_singleton. intros [Hin|Heq].
      * exact (Hfresh a' (list_elem_of_further _ _ _ Ha') Hin).
      * apply Hnotin. rewrite <- Heq.
        apply (list_elem_of_fmap_2 (account_id b58)). exact Ha'.
    + exists ((account_id b58 a, s) :: new). rewrite <- app_assoc.
      split; [reflexivity|]. apply Forall2_cons_2; [|exact Hall].
      split; [reflexivity|exact Hs].
Qed.

End ListingProofs.

Lemma getOne_inv dec b58 data s :
  getOne dec b58 data = Ok s ->
  exists r, decodeStream dec data = Ok r /\ formatDecodedStream b58 r = Ok s.
Proof.
  unfold getOne. destruct (decodeStream dec data) as [r|e]; cbn [bind]; [|discriminate].
  intros Hs. exists r. split; [reflexivity|exact Hs].
Qed.

Lemma be_decode_encode len : forall n,
  (n < 256 ^ N.of_nat len)%N -> be_decode (be_encode len n) = n.
Proof.
  induction len as [|k IH]; intros n Hn.
  - cbn in *. lia.
  - cbn [be_encode]. rewrite be_decode_snoc.
    replace (N.of_nat (S k)) with (N.succ (N.of_nat k)) in Hn by lia.
    rewrite N.pow_succ_r' in Hn.
    rewrite IH by (apply N.Div0.div_lt_upper_bound; exact Hn).
    unfold byte_of_N.
    destruct (Byte.of_N (n mod 256)) as [x|] eqn:Hx.
    + apply Byte.to_of_N in Hx. rewrite Hx. symmetry. apply N.div_mod. lia.
    + apply Byte.of_N_None_iff in Hx. pose proof (N.mod_upper_bound n 256). lia.
Qed.

Lemma scanned_key dec data r wallet p get o :
  decodeStream dec data = Ok r ->
  (p, get) ∈ key_fields ->
  field_bytes data p = slice data o (o + 32) ->
  slice data o (o + 32) = toBuffer wallet ->
  (_bn wallet < 2 ^ 256)%N ->
  get r = wallet.
Proof.
  intros Hr Hin Hbytes Hscan Hwallet.
  destruct (le_lt_dec 463 (length data)) as [Hlen|Hlen].
  2: { rewrite decodeStream_short in Hr by exact Hlen. discriminate Hr. }
  destruct (decodeStream_long dec data Hlen) as (r' & Hr' & Hreads).
  assert (r' = r) as -> by congruence.
  pose proof (reads_layout_key _ _ _ _ _ Hreads Hin) as Hbn.
  rewrite Hbytes, Hscan in Hbn. unfold toBuffer in Hbn.
  rewrite be_decode_encode in Hbn by exact Hwallet.
  destruct (get r) as [n], wallet as [w]. cbn in Hbn. f_equal. exact Hbn.
Qed.

Lemma formatted_sender b58 r s :
  formatted_from b58 r s ->
  Stream.sender s = b58 (DecodedStream.sender r) /\
  Stream.recipient s = b58 (DecodedStream.recipient r).
Proof.
  intros (_ & _ & Hkeys & _). rewrite Forall_forall in Hkeys. split.
  - apply (Hkeys (Stream.sender, DecodedStream.sender)).
    unfold printed_keys. repeat constructor.
  - apply (Hkeys (Stream.recipient, DecodedStream.recipient)).
    unfold printed_keys. repeat constructor.
Qed.

Lemma filter_keys_NoDup {V} (P : string * V -> Prop) `{!forall e, Decision (P e)}
    (l : list (string * V)) :
  NoDup (map fst l) -> NoDup (map fst (filter P l)).
Proof.
  induction l as [|e rest IH]; [intros _; apply NoDup_nil_2|].
  cbn [map]. intros Hnd. apply NoDup_cons in Hnd as [Hout Hnd].
  rewrite filter_cons. destruct (decide (P e)); [|apply IH; exact Hnd].
  cbn [map]. apply NoDup_cons. split; [|apply IH; exact Hnd].
  intros Hin. apply Hout.
  apply list_elem_of_fmap in Hin as (e' & -> & He').
  apply list_elem_of_filter in He' as [_ He'].
  apply (list_elem_of_fmap_2 fst). exact He'.
Qed.

Section GetProofs.

Variable dec : list byte -> jsstring.
Variable b58 : PublicKey -> string.
Variable scan : nat -> list Account.

Lemma get_inv type direction out :
  get dec b58 scan type direction = Ok out ->
  exists streams,
    collect dec b58 (fetched scan direction) [] = Ok streams /\
    (type = "all" /\ out = streams \/
     type <> "all" /\ exists P (H : forall e, Decision (P e)), out = @filter _ _ _ P H streams).
Proof.
  unfold get. destruct (collect dec b58 (fetched scan direction) []) as [streams|e];
    cbn [bind]; [|discriminate].
  rewrite sort_by_startTime_keeps_order.
  intros Hout. exists streams. split; [reflexivity|].
  destruct (decide (type = "all")) as [Hall|Hnot].
  - left. split; [exact Hall|congruence].
  - right. split; [exact Hnot|].
    destruct (decide (type = "stream")); injection Hout as <-; eauto.
Qed.

Lemma get_values type direction out e :
  get dec b58 scan type direction = Ok out -> e ∈ out ->
  exists a, a ∈ fetched scan direction /\ fst e = account_id b58 a /\
    getOne dec b58 (data a) = Ok (snd e).
Proof.
  intros Hget He. destruct (get_inv _ _ _ Hget) as (streams & Hc & Hout).
  assert (e ∈ streams) as Hin.
  { destruct Hout as [[_ ->]|(_ & P & H & ->)]; [exact He|].
    apply list_elem_of_filter in He as [_ He]. exact He. }
  destruct (collect_values _ _ _ _ _ _ Hc Hin) as [Hnil|Ha]; [|exact Ha].
  apply elem_of_nil in Hnil. contradiction.
Qed.

End GetProofs.

(** X12: The listing is all or nothing: it returns exactly when every fetched
    account decodes and formats, and when it throws, the error is the one
    of a fetched account. *)
Theorem get_all_or_nothing (dec : list byte -> jsstring) (b58 : PublicKey -> string)
    (scan : nat -> list Account) (type direction : string) :
  (returns (get dec b58 scan type direction) <->
   Forall (fun a => returns (getOne dec b58 (data a))) (fetched scan direction)) /\
  (forall e, get dec b58 scan type direction = Throw e ->
     exists a, a ∈ fetched scan direction /\ getOne dec b58 (data a) = Throw e).
Proof.
  split.
  - rewrite <- (collect_returns dec b58 (fetched scan direction) []).
    unfold get. destruct (collect dec b58 (fetched scan direction) []) as [streams|e];
      cbn [bind].
    + split; [intros _; eexists; reflexivity|]. intros _.
      repeat destruct (decide _); eexists; reflexivity.
    + split; intros [out Hout]; discriminate Hout.
  - intros e. unfold get.
    destruct (collect dec b58 (fetched scan direction) []) as [streams|e'] eqn:Hc;
      cbn [bind].
    + repeat destruct (decide _); discriminate.
    + intros H. injection H as <-. exact (collect_throws _ _ _ _ _ Hc).
Qed.

(** X13: The listing never holds an id twice, also for direction "all" when an
    account is found by both scans; every entry is a fetched account's id
    with that account's formatted record, and with type "all" every fetched
    id is listed. *)
Theorem get_ids_distinct (dec : list byte -> jsstring) (b58 : PublicKey -> string)
    (scan : nat -> list Account) (type direction : string)
    (out : list (string * Stream.t)) :
  get dec b58 scan type direction = Ok out ->
  NoDup (map fst out) /\
  (forall e, e ∈ out ->
     exists a, a ∈ fetched scan direction /\ fst e = account_id b58 a /\
       getOne dec b58 (data a) = Ok (snd e)) /\
  (type = "all" ->
   forall a, a ∈ fetched scan direction -> account_id b58 a ∈ map fst out).
Proof.
  intros Hget. split; [|split].
  - destruct (get_inv _ _ _ _ _ _ Hget) as (streams & Hc & Hout).
    pose proof (collect_NoDup _ _ _ _ _ Hc (NoDup_nil_2 (A := string))) as Hnd.
    destruct Hout as [[_ ->]|(_ & P & H & ->)]; [exact Hnd|].
    apply filter_keys_NoDup. exact Hnd.
  - intros e He. exact (get_values _ _ _ _ _ _ _ Hget He).
  - intros Hall a Ha. destruct (get_inv _ _ _ _ _ _ Hget) as (streams & Hc & Hout).
    destruct Hout as [[_ ->]|[Hnot _]]; [|contradiction].
    apply (collect_keys _ _ _ _ _ Hc). right.
    apply (list_elem_of_fmap_2 (account_id b58)). exact Ha.
Qed.

Lemma get_ids_distinct_witness :
  exists out, get no_text sample_base58 sample_scan "all" "all" = Ok out /\
    NoDup (map fst out) /\
    (forall e, e ∈ out ->
       exists a, a ∈ fetched sample_scan "all" /\ fst e = account_id sample_base58 a /\
         getOne no_text sample_base58 (data a) = Ok (snd e)) /\
    ("all" = "all" ->
     forall a, a ∈ fetched sample_scan "all" -> account_id sample_base58 a ∈ map fst out).
Proof.
  eexists. split; [vm_compute; reflexivity|].
  apply (get_ids_distinct no_text sample_base58 sample_scan "all" "all").
  vm_compute. reflexivity.
Defined.

(** X14: With type "all" and fetched accounts of distinct ids, the listing is the
    fetched accounts one by one in the order they were fetched: the sort
    compares a property the formatted records do not have and moves
    nothing, whatever the start times are. *)
Theorem get_keeps_fetch_order (dec : list byte -> jsstring) (b58 : PublicKey -> string)
    (scan : nat -> list Account) (direction : string)
    (out : list (string * Stream.t)) :
  NoDup (map (account_id b58) (fetched scan direction)) ->
  get dec b58 scan "all" direction = Ok out ->
  Forall2 (fun a e => fst e = account_id b58 a /\
                      getOne dec b58 (data a) = Ok (snd e))
          (fetched scan direction) out.
Proof.
  intros Hnd Hget. destruct (get_inv _ _ _ _ _ _ Hget) as (streams & Hc & Hout).
  destruct Hout as [[_ ->]|[Hnot _]]; [|contradiction Hnot; reflexivity].
  destruct (collect_in_order _ _ _ _ _ Hc Hnd) as (new & -> & Hall).
  - intros a _. cbn [map]. apply not_elem_of_nil.
  - exact Hall.
Qed.

Lemma get_keeps_fetch_order_witness :
  exists out, get no_text sample_base58 sample_scan "all" "incoming" = Ok out /\
    Forall2 (fun a e => fst e = account_id sample_base58 a /\
                        getOne no_text sample_base58 (data a) = Ok (snd e))
            (fetched sample_scan "incoming") out.
Proof.
  eexists. split; [vm_compute; reflexivity|].
  apply (get_keeps_fetch_order no_text sample_base58 sample_scan "incoming").
  - apply (bool_decide_unpack _). vm_compute. exact I.
  - vm_compute. reflexivity.
Defined.

(** X16: When the scan honours its memcmp filter, direction "outgoing" lists
    only streams whose sender is the wallet, any other direction but "all"
    (so "incoming") only streams whose recipient is the wallet, and "all"
    only streams with the wallet on one side. *)
Theorem get_direction_filters (dec : list byte -> jsstring) (b58 : PublicKey -> string)
    (scan : nat -> list Account) (wallet : PublicKey)
    (type direction : string) (out : list (string * Stream.t)) :
  memcmp_filtered wallet scan ->
  (_bn wallet < 2 ^ 256)%N ->
  get dec b58 scan type direction = Ok out ->
  Forall (fun e =>
    if decide (direction = "all")
    then Stream.sender (snd e) = b58 wallet \/ Stream.recipient (snd e) = b58 wallet
    else if decide (direction = "outgoing")
    then Stream.sender (snd e) = b58 wallet
    else Stream.recipient (snd e) = b58 wallet) out.
Proof.
  intros Hscan Hwallet Hget. apply Forall_forall. intros e He.
  destruct (get_values _ _ _ _ _ _ _ Hget He) as (a & Ha & _ & Hone).
  destruct (getOne_inv _ _ _ _ Hone) as (r & Hr & Hs).
  destruct (formatted_sender _ _ _ (formatDecodedStream_ok _ _ _ Hs)) as [Hsender Hrecipient].
  assert (a ∈ scan STREAM_STRUCT_OFFSET_SENDER -> Stream.sender (snd e) = b58 wallet) as Hout.
  { intros Hin. rewrite Hsender. f_equal.
    apply (scanned_key dec (data a) r wallet "sender" DecodedStream.sender 49 Hr).
    - unfold key_fields. repeat constructor.
    - reflexivity.
    - exact (Hscan _ _ Hin).
    - exact Hwallet. }
  assert (a ∈ scan STREAM_STRUCT_OFFSET_RECIPIENT -> Stream.recipient (snd e) = b58 wallet) as Hinc.
  { intros Hin. rewrite Hrecipient. f_equal.
    apply (scanned_key dec (data a) r wallet "recipient" DecodedStream.recipient 113 Hr).
    - unfold key_fields. repeat constructor.
    - reflexivity.
    - exact (Hscan _ _ Hin).
    - exact Hwallet. }
  unfold fetched in Ha.
  destruct (decide (direction = "all")).
  - apply elem_of_app in Ha as [Ha|Ha]; [left; exact (Hout Ha)|right; exact (Hinc Ha)].
  - destruct (decide (direction = "outgoing")); [exact (Hout Ha)|exact (Hinc Ha)].
Qed.

Lemma get_direction_filters_witness :
  memcmp_filtered {| _bn := 0 |} sample_scan /\
  exists out, get no_text sample_base58 sample_scan "all" "outgoing" = Ok out /\
    Forall (fun e =>
      if decide ("outgoing" = "all")
      then Stream.sender (snd e) = sample_base58 {| _bn := 0 |} \/
           Stream.recipient (snd e) = sample_base58 {| _bn := 0 |}
      else if decide ("outgoing" = "outgoing")
      then Stream.sender (snd e) = sample_base58 {| _bn := 0 |}
      else Stream.recipient (snd e) = sample_base58 {| _bn := 0 |}) out.
Proof.
  assert (memcmp_filtered {| _bn := 0 |} sample_scan) as Hscan.
  { intros offset account. unfold sample_scan.
    destruct (bool_decide_reflect
                (offset = STREAM_STRUCT_OFFSET_SENDER \/ offset = STREAM_STRUCT_OFFSET_RECIPIENT))
      as [Hoff|_]; [|intros Hin; apply elem_of_nil in Hin; contradiction].
    intros Hin. apply elem_of_cons in Hin as [->|Hin].
    - destruct Hoff as [->| ->]; vm_compute; reflexivity.
    - apply list_elem_of_singleton in Hin as ->.
      destruct Hoff as [->| ->]; vm_compute; reflexivity. }
  split; [exact Hscan|].
  eexists. split; [vm_compute; reflexivity|].
  apply (get_direction_filters no_text sample_base58 sample_scan {| _bn := 0 |} "all" "outgoing").
  - exact Hscan.
  - vm_compute. reflexivity.
  - vm_compute. reflexivity.
Defined.

(** ** Examples from the specification's test list *)

Example getBN_one_and_a_half : getBN (Finite (3 # 2)) 6 = Ok 1500000%Z.
Proof. vm_compute. reflexivity. Qed.

Example getNumberFromBN_one_and_a_half :
  getNumberFromBN 1500000%Z 6 = Ok (Finite (3 # 2)).
Proof. vm_compute. reflexivity. Qed.

Example encode_ab :
  formatStringToBytesArray [97; 98]%N = Ok ([97; 98] ++ replicate 62 0)%Z.
Proof. vm_compute. reflexivity. Qed.

(** Sixty-three letters and a euro sign (three bytes in UTF-8): the sign
    does not fit and is left out whole. *)
Example encode_straddling_code_point :
  formatStringToBytesArray (replicate 63 97%N ++ [0x20AC%N])
    = Ok (replicate 63 97%Z ++ [0%Z]).
Proof. vm_compute. reflexivity. Qed.

(** A surrogate pair is one code point of four bytes. *)
Example encode_surrogate_pair :
  TextEncoder_encode [0xD83D; 0xDE00]%N = [xf0; x9f; x98; x80].
Proof. vm_compute. reflexivity. Qed.
